(** * CellRank: pseudotime kernel, terminal states and fate probabilities

    A shallow embedding of [cellrank/tl/kernels/_pseudotime_kernel.py] and of
    the estimator operations exercised by [tests/test_cflare.py].

    Conventions of the embedding:
    - a float64 is an exact rational or [NaN]; rounding and the infinities
      are abstracted away, [NaN] is kept because the code tests for it;
    - Python objects that are mutated or compared by identity (kernels, the
      data container, numpy buffers, sparse-matrix objects) live in a store
      and are referred to by location;
    - a Python call is a computation in a state-and-exception monad: a raised
      exception keeps the mutations made before it. *)

From Stdlib Require Import Ascii String QArith Qcanon Qabs Qcabs Lqa DecimalString.
From Stdlib Require Floats.
From stdpp Require Import base gmap strings list fin_maps.

Set Default Proof Using "Type".

(** ** Python values, exceptions and [repr] *)

Module Python.

Inductive exn :=
| KeyError (msg : string)
| ValueError (msg : string)
| TypeError (msg : string)
| RuntimeError (msg : string)
| IndexError (msg : string)
| NotImplementedError (msg : string).

Inductive res (A : Type) :=
| Ok (a : A)
| Raise (e : exn).
Arguments Ok {A} a.
Arguments Raise {A} e.

Definition is_ok {A} (r : res A) : bool :=
  match r with Ok _ => true | Raise _ => false end.

(** float64, with rounding and infinities abstracted. *)
Inductive float :=
| Fin (q : Qc)
| NaN.

#[global] Instance float_eq_dec : EqDecision float.
Proof. solve_decision. Defined.

Definition isnan (x : float) : bool :=
  match x with NaN => true | Fin _ => false end.

Definition fsub (a b : float) : float :=
  match a, b with
  | Fin x, Fin y => Fin (x - y)
  | _, _ => NaN
  end.

Definition fadd (a b : float) : float :=
  match a, b with
  | Fin x, Fin y => Fin (x + y)
  | _, _ => NaN
  end.

Definition Qc_leb (x y : Qc) : bool := Qle_bool x y.

(** The binary step of [np.max] / [np.min]: both propagate [NaN]. *)
Definition fmax (a b : float) : float :=
  match a, b with
  | Fin x, Fin y => if Qc_leb x y then Fin y else Fin x
  | _, _ => NaN
  end.

Definition fmin (a b : float) : float :=
  match a, b with
  | Fin x, Fin y => if Qc_leb x y then Fin x else Fin y
  | _, _ => NaN
  end.

(** Maximum and minimum of two rationals, as [fmax] and [fmin] pick them. *)
Definition qmax (x y : Qc) : Qc := if Qc_leb x y then y else x.
Definition qmin (x y : Qc) : Qc := if Qc_leb x y then x else y.

(** The order on floats: it holds between finite values only. *)
Definition fle (a b : float) : Prop :=
  match a, b with
  | Fin x, Fin y => (x <= y)%Qc
  | _, _ => False
  end.

(** Values that occur in parameter dictionaries. *)
Inductive pyval :=
| PyNone
| PyBool (b : bool)
| PyInt (z : Z)
| PyFloat (f : float)
| PyStr (s : string).

#[global] Instance pyval_eq_dec : EqDecision pyval.
Proof. solve_decision. Defined.

(** *** [repr] of a [str]

    CPython picks single quotes unless the string holds a single quote and no
    double quote; it escapes the backslash, the chosen quote, tab, newline,
    carriage return, and writes the other ASCII control characters as
    [\xNN]. Bytes above 127 (the UTF-8 encoding of non-ASCII text) are kept. *)

Definition squote : ascii := ascii_of_nat 39.
Definition dquote : ascii := ascii_of_nat 34.
Definition backslash : ascii := ascii_of_nat 92.

Fixpoint contains (c : ascii) (s : string) : bool :=
  match s with
  | EmptyString => false
  | String d s' => Ascii.eqb c d || contains c s'
  end.

Definition hex_digit (n : nat) : ascii :=
  if n <? 10 then ascii_of_nat (48 + n) else ascii_of_nat (87 + n).

Definition hex2 (n : nat) : string :=
  String (hex_digit (n / 16)) (String (hex_digit (n mod 16)) EmptyString).

Definition repr_char (quote c : ascii) : string :=
  let n := nat_of_ascii c in
  if Ascii.eqb c quote || Ascii.eqb c backslash then String backslash (String c EmptyString)
  else if n =? 9 then String backslash "t"
  else if n =? 10 then String backslash "n"
  else if n =? 13 then String backslash "r"
  else if (n <? 32) || (n =? 127) then String backslash ("x" +:+ hex2 n)
  else String c EmptyString.

Fixpoint repr_body (quote : ascii) (s : string) : string :=
  match s with
  | EmptyString => EmptyString
  | String c s' => repr_char quote c +:+ repr_body quote s'
  end.

Definition repr (s : string) : string :=
  let quote := if contains squote s && negb (contains dquote s) then dquote else squote in
  String quote (repr_body quote s +:+ String quote EmptyString).

(** Decimal rendering of a count inside an f-string. *)
Definition str_of_nat (n : nat) : string := NilEmpty.string_of_uint (Nat.to_uint n).

End Python.

Import Python.

(** ** numpy reductions *)

Module np.

(** [np.max(a)]: raises on a zero-size array. *)
Definition max (a : list float) : res float :=
  match a with
  | [] => Raise (ValueError "zero-size array to reduction operation maximum which has no identity")
  | x :: xs => Ok (foldl fmax x xs)
  end.

Definition min (a : list float) : res float :=
  match a with
  | [] => Raise (ValueError "zero-size array to reduction operation minimum which has no identity")
  | x :: xs => Ok (foldl fmin x xs)
  end.

Definition sum (a : list float) : float := foldl fadd (Fin 0) a.

Definition any_isnan (a : list float) : bool := existsb isnan a.

End np.

(** ** The same array arithmetic in binary64

    [np.max(p) - p] on IEEE 754 double precision numbers, with the rounding
    that the exact rationals above leave out. *)

Module binary64.

Definition fmax (a b : PrimFloat.float) : PrimFloat.float :=
  if PrimFloat.is_nan a then a
  else if PrimFloat.is_nan b then b
  else if PrimFloat.ltb a b then b else a.

Definition fmin (a b : PrimFloat.float) : PrimFloat.float :=
  if PrimFloat.is_nan a then a
  else if PrimFloat.is_nan b then b
  else if PrimFloat.ltb b a then b else a.

Definition max (a : list PrimFloat.float) : option PrimFloat.float :=
  match a with
  | [] => None
  | x :: xs => Some (foldl fmax x xs)
  end.

Definition min (a : list PrimFloat.float) : option PrimFloat.float :=
  match a with
  | [] => None
  | x :: xs => Some (foldl fmin x xs)
  end.




End binary64.

(** ** The boolean order on rationals *)

Lemma Qc_leb_le (x y : Qc) : Qc_leb x y = true ↔ (x <= y)%Qc.
Proof. unfold Qc_leb, Qcle. apply Qle_bool_iff. Qed.

Lemma Qc_leb_gt (x y : Qc) : Qc_leb x y = false → (y <= x)%Qc.
Proof.
  intros H. destruct (Qclt_le_dec x y) as [Hlt | Hle]; [|exact Hle].
  apply Qclt_le_weak, Qc_leb_le in Hlt. congruence.
Qed.

(** ** The store of Python objects and the monad of calls *)

Module pseudotime_kernel.

Definition loc := positive.

(** A numpy buffer. *)
Inductive ndarray :=
| FloatArray (a : list float)
| IntArray (a : list Z).

(** A [scipy.sparse.csr_matrix] object: three attributes that refer to numpy
    buffers, and the shape. *)
Record csr_matrix := {
  data : loc;
  indices : loc;
  indptr : loc;
  shape : nat * nat }.

(** A dense view of a weighted graph, one row per cell. *)
Definition knn := list (list float).

(** The part of the data container the kernel reads: [adata.obs], the
    connectivities in [adata.obsp] and
    [adata.uns['neighbors']['params']['n_neighbors']]. *)
Record AnnData := {
  obs : gmap string (list float);
  obsp_connectivities : option knn;
  uns_n_neighbors : option pyval }.

Record PseudotimeKernel := {
  _adata : loc;
  _backward : bool;
  _conn : knn;
  _time_key : string;
  _pseudotime : loc;
  _params : gmap string pyval;
  _cond_num : option float;
  _transition_matrix : option loc }.

Record store := {
  adatas : gmap loc AnnData;
  arrays : gmap loc ndarray;
  matrices : gmap loc csr_matrix;
  kernels : gmap loc PseudotimeKernel }.

Definition M (A : Type) : Type := store → res A * store.

Definition ret {A} (a : A) : M A := λ st, (Ok a, st).
Definition raise {A} (e : exn) : M A := λ st, (Raise e, st).
Definition bind {A B} (c : M A) (k : A → M B) : M B :=
  λ st, match c st with
        | (Ok a, st') => k a st'
        | (Raise e, st') => (Raise e, st')
        end.
Definition lift {A} (r : res A) : M A := λ st, (r, st).

Notation "'do' x <- c ; k" := (bind c (λ x, k))
  (at level 10, x pattern, c at level 100, k at level 200).
Notation "c ;; k" := (bind c (λ _, k))
  (at level 100, k at level 200, right associativity).

Definition bind_res {A B} (r : res A) (k : A → res B) : res B :=
  match r with Ok a => k a | Raise e => Raise e end.

Definition dangling {A} : M A := raise (RuntimeError "dangling reference").

Definition get_adata (l : loc) : M AnnData :=
  λ st, match adatas st !! l with Some a => (Ok a, st) | None => dangling st end.

Definition get_kernel (l : loc) : M PseudotimeKernel :=
  λ st, match kernels st !! l with Some k => (Ok k, st) | None => dangling st end.

Definition get_matrix (l : loc) : M csr_matrix :=
  λ st, match matrices st !! l with Some m => (Ok m, st) | None => dangling st end.

Definition get_array (l : loc) : M ndarray :=
  λ st, match arrays st !! l with Some a => (Ok a, st) | None => dangling st end.

Definition get_float_array (l : loc) : M (list float) :=
  do a <- get_array l;
  match a with
  | FloatArray xs => ret xs
  | IntArray _ => raise (TypeError "expected an array of floats")
  end.

Definition set_kernel (l : loc) (k : PseudotimeKernel) : M unit :=
  λ st, (Ok tt, {| adatas := adatas st; arrays := arrays st; matrices := matrices st;
                   kernels := <[l := k]> (kernels st) |}).

Definition alloc_array (a : ndarray) : M loc :=
  λ st, let l := fresh (dom (arrays st)) in
        (Ok l, {| adatas := adatas st; arrays := <[l := a]> (arrays st);
                  matrices := matrices st; kernels := kernels st |}).

Definition alloc_matrix (m : csr_matrix) : M loc :=
  λ st, let l := fresh (dom (matrices st)) in
        (Ok l, {| adatas := adatas st; arrays := arrays st;
                  matrices := <[l := m]> (matrices st); kernels := kernels st |}).

Definition alloc_kernel (k : PseudotimeKernel) : M loc :=
  λ st, let l := fresh (dom (kernels st)) in
        (Ok l, {| adatas := adatas st; arrays := arrays st; matrices := matrices st;
                  kernels := <[l := k]> (kernels st) |}).

(** [a[i] = v] on a buffer of floats. *)
Definition setitem (l : loc) (i : nat) (v : float) : M unit :=
  do xs <- get_float_array l;
  if decide (i < length xs) then
    λ st, (Ok tt, {| adatas := adatas st; arrays := <[l := FloatArray (<[i := v]> xs)]> (arrays st);
                     matrices := matrices st; kernels := kernels st |})
  else raise (IndexError "index out of bounds").

(** Attribute assignments on a kernel. *)
Definition with_backward (b : bool) (k : PseudotimeKernel) : PseudotimeKernel :=
  {| _adata := _adata k; _backward := b; _conn := _conn k; _time_key := _time_key k;
     _pseudotime := _pseudotime k; _params := _params k; _cond_num := _cond_num k;
     _transition_matrix := _transition_matrix k |}.

Definition with_pseudotime (p : loc) (k : PseudotimeKernel) : PseudotimeKernel :=
  {| _adata := _adata k; _backward := _backward k; _conn := _conn k; _time_key := _time_key k;
     _pseudotime := p; _params := _params k; _cond_num := _cond_num k;
     _transition_matrix := _transition_matrix k |}.

Definition with_params (ps : gmap string pyval) (k : PseudotimeKernel) : PseudotimeKernel :=
  {| _adata := _adata k; _backward := _backward k; _conn := _conn k; _time_key := _time_key k;
     _pseudotime := _pseudotime k; _params := ps; _cond_num := _cond_num k;
     _transition_matrix := _transition_matrix k |}.

Definition with_cond_num (c : option float) (k : PseudotimeKernel) : PseudotimeKernel :=
  {| _adata := _adata k; _backward := _backward k; _conn := _conn k; _time_key := _time_key k;
     _pseudotime := _pseudotime k; _params := _params k; _cond_num := c;
     _transition_matrix := _transition_matrix k |}.

Definition with_transition_matrix (t : option loc) (k : PseudotimeKernel) : PseudotimeKernel :=
  {| _adata := _adata k; _backward := _backward k; _conn := _conn k; _time_key := _time_key k;
     _pseudotime := _pseudotime k; _params := _params k; _cond_num := _cond_num k;
     _transition_matrix := t |}.

(** ** [copy.copy]

    [ndarray.__copy__] copies the buffer. A sparse matrix defines no
    [__copy__]: the shallow copy is a new object whose attributes refer to
    the buffers of the original. [None] copies to [None]. *)

Definition copy_ndarray (l : loc) : M loc :=
  do a <- get_array l; alloc_array a.

Definition copy_csr_matrix (t : option loc) : M (option loc) :=
  match t with
  | None => ret None
  | Some l => do m <- get_matrix l; do l' <- alloc_matrix m; ret (Some l')
  end.

(** ** PseudotimeKernel *)

(** Modelled from the spec: [Kernel._read_from_adata] of the base class,
    absent from the sources. It reads the precomputed neighbor-connectivity
    matrix, a required annotation: its absence is a fatal configuration
    error. *)
Definition Kernel_read_from_adata (ad : AnnData) : res knn :=
  match obsp_connectivities ad with
  | Some c => Ok c
  | None => Raise (KeyError "Could not find connectivities in `adata.obsp`.")
  end.

(** [PseudotimeKernel._read_from_adata]: the connectivities and the
    pseudotime the new kernel will hold. *)
Definition _read_from_adata (ad : AnnData) (backward : bool) (time_key : string)
  : res (knn * list float) :=
  bind_res (Kernel_read_from_adata ad) (λ conn,
  match obs ad !! time_key with
  | None =>
      Raise (KeyError ("Could not find time key in `adata.obs[" +:+ repr time_key +:+ "]`."))
  | Some column =>
      bind_res (if backward
                then bind_res (np.max column) (λ m, Ok (map (fsub m) column))
                else Ok column) (λ pseudotime,
      if np.any_isnan pseudotime
      then Raise (ValueError "Encountered NaN values in pseudotime.")
      else Ok (conn, pseudotime))
  end).

(** [PseudotimeKernel.__init__]. The base class (modelled from the spec, state
    UNINITIALIZED) starts with empty parameters and no transition matrix. *)
Definition __init__ (adata : loc) (backward : bool) (time_key : string) : M loc :=
  do ad <- get_adata adata;
  do (conn, pseudotime) <- lift (_read_from_adata ad backward time_key);
  do p <- alloc_array (FloatArray pseudotime);
  alloc_kernel {| _adata := adata; _backward := backward; _conn := conn;
                  _time_key := time_key; _pseudotime := p; _params := ∅;
                  _cond_num := None; _transition_matrix := None |}.

(** Modelled from the spec: [Kernel.__invert__] of the base class, absent from
    the sources, toggles the direction in place. *)
Definition Kernel___invert__ (self : loc) : M unit :=
  do k <- get_kernel self;
  set_kernel self (with_backward (negb (_backward k)) k).

Definition __invert__ (self : loc) : M loc :=
  Kernel___invert__ self;;
  do k <- get_kernel self;
  do pseudotime <- get_float_array (_pseudotime k);
  do m <- lift (np.max pseudotime);
  do p <- alloc_array (FloatArray (map (fsub m) pseudotime));
  set_kernel self (with_pseudotime p k);;
  ret self.

Definition copy (self : loc) : M loc :=
  do k <- get_kernel self;
  do pk <- __init__ (_adata k) (_backward k) (_time_key k);
  do p <- copy_ndarray (_pseudotime k);
  do t <- copy_csr_matrix (_transition_matrix k);
  do k' <- get_kernel pk;
  set_kernel pk (with_transition_matrix t
                  (with_cond_num (_cond_num k)
                    (with_params (_params k)
                      (with_pseudotime p k'))));;
  ret pk.

(** *** Threshold schemes and [compute_transition_matrix] *)

(** The enumeration [ThresholdScheme] of [cellrank.tl._constants]; its members
    print as their values. *)
Inductive ThresholdScheme :=
| SOFT
| HARD.

Definition ThresholdScheme_of_str (s : string) : res ThresholdScheme :=
  if decide (s = "soft") then Ok SOFT
  else if decide (s = "hard") then Ok HARD
  else Raise (ValueError ("Invalid option `" +:+ s +:+ "` for `ThresholdScheme`."
                          +:+ " Valid options are: `['soft', 'hard']`.")).

Definition ThresholdScheme_str (t : ThresholdScheme) : string :=
  match t with SOFT => "soft" | HARD => "hard" end.

(** What [scheme.bias_knn(conn, pseudotime, **kwargs)] computes. The arguments
    [n_jobs], [backend] and [show_progress_bar] only steer how the rows are
    dispatched to workers and are left out. *)
Definition bias_fn : Type := knn → list float → gmap string pyval → res knn.

(** The argument [threshold_scheme]: a string, an instance of
    [ThresholdSchemeABC], a plain callable, or anything else. [printed] is
    what [str] returns on the object. *)
Inductive threshold_scheme_arg :=
| ArgStr (s : string)
| ArgScheme (printed : string) (bias_knn : bias_fn)
| ArgCallable (printed : string) (callback : bias_fn)
| ArgOther (printed type_name : string).

Section compute_transition_matrix.

(** The two built-in schemes of [_pseudotime_schemes] and the row
    normalisation of the base class are not part of the sources; the kernel
    is verified for any implementation of them. [row_normalize] returns the
    [data], [indices] and [indptr] of the normalised sparse matrix. *)
Variable SoftThresholdScheme_bias_knn : bias_fn.
Variable HardThresholdScheme_bias_knn : bias_fn.
Variable row_normalize : knn → res (list float * list Z * list Z).

(** Modelled from the spec: [Kernel._compute_transition_matrix] of the base
    class, absent from the sources, row-normalizes the biased graph and
    stores the result as the kernel's transition matrix. *)
Definition Kernel__compute_transition_matrix (self : loc) (matrix : knn) : M unit :=
  do (di, p) <- lift (row_normalize matrix);
  do d <- alloc_array (FloatArray di.1);
  do i <- alloc_array (IntArray di.2);
  do p <- alloc_array (IntArray p);
  do t <- alloc_matrix {| data := d; indices := i; indptr := p;
                          shape := (length matrix, length matrix) |};
  do k <- get_kernel self;
  set_kernel self (with_transition_matrix (Some t) k).

(** Modelled from the spec: [Kernel._reuse_cache] of the base class, absent
    from the sources. The cache is keyed by the parameter dictionary, compared
    on each call; it is hit when the stored parameters equal the expected
    ones and a transition matrix is present. The expected parameters become
    the stored ones. *)
Definition Kernel__reuse_cache (self : loc) (expected_params : gmap string pyval) : M bool :=
  do k <- get_kernel self;
  set_kernel self (with_params expected_params k);;
  ret (bool_decide (_params k = expected_params)
       && bool_decide (is_Some (_transition_matrix k))).

(** [adata.uns.get('neighbors', {}).get('params', {}).get('n_neighbors', None)],
    with the estimate [np.min(self._conn.sum(1))] when it is [None]. *)
Definition n_neighbors_of (ad : AnnData) (conn : knn) : res pyval :=
  let estimate := bind_res (np.min (map np.sum conn)) (λ m, Ok (PyFloat m)) in
  match uns_n_neighbors ad with
  | Some v => if decide (v = PyNone) then estimate else Ok v
  | None => estimate
  end.

(** The dispatch on [threshold_scheme]: what [str(threshold_scheme)] is
    afterwards, the scheme to run, and the keyword arguments. *)
Definition select_scheme (threshold_scheme : threshold_scheme_arg)
    (frac_to_keep b nu : float) (n_neighbors : pyval) (kwargs : gmap string pyval)
  : res (string * bias_fn * gmap string pyval) :=
  match threshold_scheme with
  | ArgStr s =>
      bind_res (ThresholdScheme_of_str s) (λ t,
      match t with
      | SOFT => Ok (ThresholdScheme_str t, SoftThresholdScheme_bias_knn,
                    <["nu" := PyFloat nu]> (<["b" := PyFloat b]> kwargs))
      | HARD => Ok (ThresholdScheme_str t, HardThresholdScheme_bias_knn,
                    <["n_neighs" := n_neighbors]>
                      (<["frac_to_keep" := PyFloat frac_to_keep]> kwargs))
      end)
  | ArgScheme printed bias_knn => Ok (printed, bias_knn, kwargs)
  | ArgCallable printed callback => Ok (printed, callback, kwargs)
  | ArgOther _ type_name =>
      Raise (TypeError ("Expected `threshold_scheme` to be either a `str` or a `callable`, found `"
                        +:+ type_name +:+ "`."))
  end.

(** [{"dnorm": False, "scheme": str(threshold_scheme), **kwargs}]: a key of
    [kwargs] overrides the two fixed entries. *)
Definition cache_key (printed : string) (kwargs : gmap string pyval) : gmap string pyval :=
  kwargs ∪ <["scheme" := PyStr printed]> (<["dnorm" := PyBool false]> ∅).

Definition compute_transition_matrix (self : loc) (threshold_scheme : threshold_scheme_arg)
    (frac_to_keep b nu : float) (kwargs : gmap string pyval) : M loc :=
  do k <- get_kernel self;
  do ad <- get_adata (_adata k);
  do n_neighbors <- lift (n_neighbors_of ad (_conn k));
  do (ps, kwargs) <- lift (select_scheme threshold_scheme frac_to_keep b nu n_neighbors kwargs);
  do hit <- Kernel__reuse_cache self (cache_key ps.1 kwargs);
  if hit then ret self
  else
    do pseudotime <- get_float_array (_pseudotime k);
    do biased_conn <- lift (ps.2 (_conn k) pseudotime kwargs);
    Kernel__compute_transition_matrix self biased_conn;;
    ret self.

End compute_transition_matrix.

(** *** A concrete store

    One data container and one
    forward kernel over two cells whose transition matrix is the 2x2 matrix
    with ones off the diagonal. *)
Definition example_adata : AnnData :=
  {| obs := <["with_nan" := [Fin 0; NaN]]> (<["dpt_pseudotime" := [Fin 0; Fin 1]]> ∅);
     obsp_connectivities := Some [[Fin 0; Fin 1]; [Fin 1; Fin 0]];
     uns_n_neighbors := Some (PyInt 1) |}.

Definition example_kernel : PseudotimeKernel :=
  {| _adata := 1%positive; _backward := false;
     _conn := [[Fin 0; Fin 1]; [Fin 1; Fin 0]];
     _time_key := "dpt_pseudotime"; _pseudotime := 1%positive;
     _params := <["scheme" := PyStr "hard"]> (<["dnorm" := PyBool false]> ∅);
     _cond_num := None; _transition_matrix := Some 1%positive |}.

Definition example_store : store :=
  {| adatas := <[1%positive := example_adata]> ∅;
     arrays := <[4%positive := IntArray [0; 1; 2]%Z]>
                 (<[3%positive := IntArray [1; 0]%Z]>
                   (<[2%positive := FloatArray [Fin 1; Fin 1]]>
                     (<[1%positive := FloatArray [Fin 0; Fin 1]]> ∅)));
     matrices := <[1%positive := {| data := 2%positive; indices := 3%positive;
                                    indptr := 4%positive; shape := (2, 2) |}]> ∅;
     kernels := <[1%positive := example_kernel]> ∅ |}.

(** A forward kernel over three cells with the pseudotime [1, 3, 2]. *)
Definition sample_adata : AnnData :=
  {| obs := <["dpt_pseudotime" := [Fin 1; Fin (Q2Qc 3); Fin (Q2Qc 2)]]> ∅;
     obsp_connectivities := Some [[Fin 0; Fin 1; Fin 1]; [Fin 1; Fin 0; Fin 1];
                                  [Fin 1; Fin 1; Fin 0]];
     uns_n_neighbors := Some (PyInt 2) |}.

Definition sample_kernel : PseudotimeKernel :=
  {| _adata := 1%positive; _backward := false;
     _conn := [[Fin 0; Fin 1; Fin 1]; [Fin 1; Fin 0; Fin 1]; [Fin 1; Fin 1; Fin 0]];
     _time_key := "dpt_pseudotime"; _pseudotime := 1%positive;
     _params := ∅; _cond_num := None; _transition_matrix := None |}.

Definition sample_store : store :=
  {| adatas := <[1%positive := sample_adata]> ∅;
     arrays := <[1%positive := FloatArray [Fin 1; Fin (Q2Qc 3); Fin (Q2Qc 2)]]> ∅;
     matrices := ∅;
     kernels := <[1%positive := sample_kernel]> ∅ |}.

(** A store whose data container has no cells, with a forward kernel on it. *)
Definition empty_kernel : PseudotimeKernel :=
  {| _adata := 1%positive; _backward := false; _conn := [];
     _time_key := "dpt_pseudotime"; _pseudotime := 1%positive;
     _params := ∅; _cond_num := None; _transition_matrix := None |}.

Definition empty_store : store :=
  {| adatas := <[1%positive := {| obs := <["dpt_pseudotime" := []]> ∅;
                                  obsp_connectivities := Some [];
                                  uns_n_neighbors := None |}]> ∅;
     arrays := <[1%positive := FloatArray []]> ∅;
     matrices := ∅;
     kernels := <[1%positive := empty_kernel]> ∅ |}.

(** The buffer behind [k.transition_matrix.data], if any. *)
Definition transition_matrix_data (st : store) (k : loc) : option (loc * ndarray) :=
  kn ← kernels st !! k;
  t ← _transition_matrix kn;
  m ← matrices st !! t;
  a ← arrays st !! data m;
  Some (data m, a).

(** A scheme that keeps every edge, and a normalisation that returns the
    sparse form of the 2x2 matrix above: stand-ins for the absent callees
    when [compute_transition_matrix] is run on [example_store]. *)
Definition example_bias_knn : bias_fn := λ conn _ _, Ok conn.

Definition example_row_normalize (matrix : knn) : res (list float * list Z * list Z) :=
  Ok ([Fin 1; Fin 1], [1; 0]%Z, [0; 1; 2]%Z).

(** ** Properties of the kernel *)

(** *** NaN propagation in the numpy reductions *)

Lemma foldl_fmax_NaN (xs : list float) : foldl fmax NaN xs = NaN.
Proof. induction xs as [|x xs IH]; simpl; [done | exact IH]. Qed.

Lemma foldl_fmax_elem_NaN (xs : list float) (x : float) :
  NaN ∈ xs → foldl fmax x xs = NaN.
Proof.
  revert x. induction xs as [|y ys IH]; intros x Hin.
  - by apply elem_of_nil in Hin.
  - apply elem_of_cons in Hin as [<- | Hin]; simpl.
    + destruct x; apply foldl_fmax_NaN.
    + by apply IH.
Qed.

Lemma max_elem_NaN (a : list float) : NaN ∈ a → np.max a = Ok NaN.
Proof.
  destruct a as [|x xs]; intros Hin.
  - by apply elem_of_nil in Hin.
  - simpl. f_equal. apply elem_of_cons in Hin as [<- | Hin].
    + apply foldl_fmax_NaN.
    + by apply foldl_fmax_elem_NaN.
Qed.

Lemma any_isnan_true (a : list float) : np.any_isnan a = true ↔ NaN ∈ a.
Proof.
  unfold np.any_isnan. rewrite existsb_exists. split.
  - intros (x & Hin & Hx). destruct x; [done|]. by apply list_elem_of_In.
  - intros Hin. exists NaN. split; [by apply list_elem_of_In | done].
Qed.

Lemma any_isnan_false (a : list float) :
  np.any_isnan a = false ↔ ∃ qs, a = map Fin qs.
Proof.
  split.
  - induction a as [|x xs IH]; intros H.
    + by exists [].
    + simpl in H. apply orb_false_iff in H as [Hx Hxs].
      destruct (IH Hxs) as [qs ->]. destruct x as [q|]; [|done]. by exists (q :: qs).
  - intros [qs ->]. induction qs as [|q qs IH]; [done | exact IH].
Qed.

Lemma any_isnan_sub_NaN (a : list float) :
  a ≠ [] → np.any_isnan (map (fsub NaN) a) = true.
Proof. destruct a as [|x xs]; [done | intros _; reflexivity]. Qed.

(** *** C4: construction fails on a missing key and on NaN *)

(** C4. When the data container holds its connectivities but no column
    [time_key] in [obs], the constructor raises the [KeyError] whose message
    carries [repr time_key]; when the column exists and holds a NaN it raises
    the [ValueError]. In both cases the store is left as it was: no kernel and
    no transition matrix came into being. *)
Theorem init_fails_on_missing_key_or_nan
    (st : store) (adata : loc) (ad : AnnData) (backward : bool) (time_key : string) :
  adatas st !! adata = Some ad →
  is_Some (obsp_connectivities ad) →
  (obs ad !! time_key = None →
     __init__ adata backward time_key st =
       (Raise (KeyError ("Could not find time key in `adata.obs["
                         +:+ repr time_key +:+ "]`.")), st))
  ∧ (∀ column, obs ad !! time_key = Some column → NaN ∈ column →
     __init__ adata backward time_key st =
       (Raise (ValueError "Encountered NaN values in pseudotime."), st)).
Proof.
  intros Had [conn Hconn]. split.
  - intros Hkey. unfold __init__, bind, get_adata, lift. rewrite Had.
    unfold _read_from_adata, Kernel_read_from_adata. rewrite Hconn. simpl.
    by rewrite Hkey.
  - intros column Hkey Hnan. unfold __init__, bind, get_adata, lift. rewrite Had.
    unfold _read_from_adata, Kernel_read_from_adata. rewrite Hconn. simpl.
    rewrite Hkey. destruct backward.
    + rewrite (max_elem_NaN _ Hnan). simpl.
      rewrite any_isnan_sub_NaN; [done|]. intros ->. by apply elem_of_nil in Hnan.
    + simpl. by rewrite (proj2 (any_isnan_true column) Hnan).
Qed.

Lemma init_fails_on_missing_key_or_nan_witness :
  __init__ 1%positive false "latent_time" example_store
    = (Raise (KeyError "Could not find time key in `adata.obs['latent_time']`."),
       example_store)
  ∧ __init__ 1%positive true "with_nan" example_store
    = (Raise (ValueError "Encountered NaN values in pseudotime."), example_store).
Proof.
  assert (Had : adatas example_store !! 1%positive = Some example_adata) by reflexivity.
  assert (Hconn : is_Some (obsp_connectivities example_adata)) by (eexists; reflexivity).
  split.
  - apply (proj1 (init_fails_on_missing_key_or_nan
                    example_store 1%positive example_adata false "latent_time" Had Hconn)).
    reflexivity.
  - apply (proj2 (init_fails_on_missing_key_or_nan
                    example_store 1%positive example_adata true "with_nan" Had Hconn)
             [Fin 0; NaN]).
    + reflexivity.
    + apply list_elem_of_further, list_elem_of_here.
Defined.

(** *** Maximum and minimum of a finite array *)

Lemma qmax_cases (x y : Qc) :
  (qmax x y = x ∨ qmax x y = y) ∧ (x <= qmax x y)%Qc ∧ (y <= qmax x y)%Qc.
Proof.
  unfold qmax. destruct (Qc_leb x y) eqn:E.
  - apply Qc_leb_le in E. repeat split; [by right | done | apply Qcle_refl].
  - apply Qc_leb_gt in E. repeat split; [by left | apply Qcle_refl | done].
Qed.

Lemma qmin_cases (x y : Qc) :
  (qmin x y = x ∨ qmin x y = y) ∧ (qmin x y <= x)%Qc ∧ (qmin x y <= y)%Qc.
Proof.
  unfold qmin. destruct (Qc_leb x y) eqn:E.
  - apply Qc_leb_le in E. repeat split; [by left | apply Qcle_refl | done].
  - apply Qc_leb_gt in E. repeat split; [by right | done | apply Qcle_refl].
Qed.

(** [m] is the greatest (least) element of [qs]. *)
Definition is_max (m : Qc) (qs : list Qc) : Prop := m ∈ qs ∧ ∀ q, q ∈ qs → (q <= m)%Qc.
Definition is_min (m : Qc) (qs : list Qc) : Prop := m ∈ qs ∧ ∀ q, q ∈ qs → (m <= q)%Qc.

Lemma foldl_qmax_is_max (xs : list Qc) (x : Qc) : is_max (foldl qmax x xs) (x :: xs).
Proof.
  revert x. induction xs as [|y ys IH]; intros x; simpl.
  - split; [apply list_elem_of_here|]. intros q ->%list_elem_of_singleton. apply Qcle_refl.
  - destruct (IH (qmax x y)) as [Hin Hub].
    destruct (qmax_cases x y) as (Hc & Hx & Hy). split.
    + apply elem_of_cons in Hin as [-> | Hin].
      * destruct Hc as [-> | ->];
          [apply list_elem_of_here | apply list_elem_of_further, list_elem_of_here].
      * by do 2 apply list_elem_of_further.
    + intros q Hq.
      assert (Hm : (qmax x y <= foldl qmax (qmax x y) ys)%Qc) by (apply Hub, list_elem_of_here).
      apply elem_of_cons in Hq as [-> | Hq]; [by eapply Qcle_trans|].
      apply elem_of_cons in Hq as [-> | Hq]; [by eapply Qcle_trans|].
      by apply Hub, list_elem_of_further.
Qed.

Lemma foldl_qmin_is_min (xs : list Qc) (x : Qc) : is_min (foldl qmin x xs) (x :: xs).
Proof.
  revert x. induction xs as [|y ys IH]; intros x; simpl.
  - split; [apply list_elem_of_here|]. intros q ->%list_elem_of_singleton. apply Qcle_refl.
  - destruct (IH (qmin x y)) as [Hin Hlb].
    destruct (qmin_cases x y) as (Hc & Hx & Hy). split.
    + apply elem_of_cons in Hin as [-> | Hin].
      * destruct Hc as [-> | ->];
          [apply list_elem_of_here | apply list_elem_of_further, list_elem_of_here].
      * by do 2 apply list_elem_of_further.
    + intros q Hq.
      assert (Hm : (foldl qmin (qmin x y) ys <= qmin x y)%Qc) by (apply Hlb, list_elem_of_here).
      apply elem_of_cons in Hq as [-> | Hq]; [by eapply Qcle_trans|].
      apply elem_of_cons in Hq as [-> | Hq]; [by eapply Qcle_trans|].
      by apply Hlb, list_elem_of_further.
Qed.

Lemma is_max_unique (m m' : Qc) (qs : list Qc) : is_max m qs → is_max m' qs → m = m'.
Proof. intros [H1 H2] [H1' H2']. apply Qcle_antisym; auto. Qed.

Lemma foldl_fmax_Fin (xs : list Qc) (x : Qc) :
  foldl fmax (Fin x) (map Fin xs) = Fin (foldl qmax x xs).
Proof.
  revert x. induction xs as [|y ys IH]; intros x; simpl; [done|].
  rewrite <- IH. unfold qmax. by destruct (Qc_leb x y).
Qed.

Lemma foldl_fmin_Fin (xs : list Qc) (x : Qc) :
  foldl fmin (Fin x) (map Fin xs) = Fin (foldl qmin x xs).
Proof.
  revert x. induction xs as [|y ys IH]; intros x; simpl; [done|].
  rewrite <- IH. unfold qmin. by destruct (Qc_leb x y).
Qed.

Lemma max_finite (qs : list Qc) :
  qs ≠ [] → ∃ m, np.max (map Fin qs) = Ok (Fin m) ∧ is_max m qs.
Proof.
  destruct qs as [|x xs]; [done|]. intros _. exists (foldl qmax x xs). split.
  - simpl. by rewrite foldl_fmax_Fin.
  - apply foldl_qmax_is_max.
Qed.

Lemma min_finite (qs : list Qc) :
  qs ≠ [] → ∃ m, np.min (map Fin qs) = Ok (Fin m) ∧ is_min m qs.
Proof.
  destruct qs as [|x xs]; [done|]. intros _. exists (foldl qmin x xs). split.
  - simpl. by rewrite foldl_fmin_Fin.
  - apply foldl_qmin_is_min.
Qed.

Lemma max_nonempty (a : list float) : a ≠ [] → ∃ m, np.max a = Ok m.
Proof. destruct a; [done|]. intros _. eexists. reflexivity. Qed.

Lemma sub_le_sub (m x y : Qc) : (x <= y)%Qc → (m - y <= m - x)%Qc.
Proof.
  intros H. unfold Qcminus. apply Qcplus_le_compat; [apply Qcle_refl|].
  by apply Qcopp_le_compat.
Qed.

(** The inverted array of a finite array, and its maximum. *)
Lemma map_fsub_Fin (m : Qc) (qs : list Qc) :
  map (fsub (Fin m)) (map Fin qs) = map Fin (map (λ q, m - q)%Qc qs).
Proof. rewrite !map_map. reflexivity. Qed.

Lemma is_max_inverted (m n : Qc) (qs : list Qc) :
  is_max m qs → is_min n qs → is_max (m - n)%Qc (map (λ q, m - q)%Qc qs).
Proof.
  intros _ [Hin Hlb]. split.
  - apply list_elem_of_fmap. by exists n.
  - intros q (q' & -> & Hq')%list_elem_of_fmap. apply sub_le_sub. by apply Hlb.
Qed.

(** *** C6 and C9: the inversion operator *)

(** The store after [~k]: one new buffer, and the kernel object at [self]
    overwritten. *)
Definition inverted_store (st : store) (self : loc) (k : PseudotimeKernel)
    (inverted : list float) : store :=
  let p := fresh (dom (arrays st)) in
  {| adatas := adatas st;
     arrays := <[p := FloatArray inverted]> (arrays st);
     matrices := matrices st;
     kernels := <[self := with_pseudotime p (with_backward (negb (_backward k)) k)]> (kernels st) |}.

Lemma invert_run (st : store) (self : loc) (k : PseudotimeKernel) (pseudotime : list float) (m : float) :
  kernels st !! self = Some k →
  arrays st !! _pseudotime k = Some (FloatArray pseudotime) →
  np.max pseudotime = Ok m →
  __invert__ self st = (Ok self, inverted_store st self k (map (fsub m) pseudotime)).
Proof.
  intros Hk Hp Hm.
  unfold __invert__, Kernel___invert__, bind, get_kernel, get_float_array, bind,
    get_array, set_kernel, lift, alloc_array, ret. simpl.
  rewrite Hk. simpl. rewrite lookup_insert_eq. simpl. rewrite Hp. simpl.
  rewrite Hm. unfold inverted_store. simpl. by rewrite insert_insert_eq.
Qed.


Lemma sub_self (m : Qc) : (m - m = 0)%Qc.
Proof. ring. Qed.

(** [m] is what [np.max] returns on [a]: NaN when [a] holds a NaN, and
    otherwise an entry of [a] that no entry exceeds. *)
Definition is_maximum (m : float) (a : list float) : Prop :=
  (NaN ∈ a ∧ m = NaN)
  ∨ ((NaN ∉ a) ∧ m ∈ a ∧ ∀ x, x ∈ a → fle x m).

Lemma finite_of_no_NaN (a : list float) : NaN ∉ a → ∃ qs, a = map Fin qs.
Proof.
  intros Hnan. apply any_isnan_false. destruct (np.any_isnan a) eqn:E; [|done].
  by apply any_isnan_true in E.
Qed.

Lemma max_is_maximum (a : list float) (m : float) : np.max a = Ok m → is_maximum m a.
Proof.
  intros Hm. destruct (decide (NaN ∈ a)) as [Hnan | Hnan].
  - left. split; [done|]. rewrite (max_elem_NaN a Hnan) in Hm. by injection Hm.
  - right. split; [done|]. destruct (finite_of_no_NaN a Hnan) as [qs ->].
    assert (Hne : qs ≠ []) by (intros ->; discriminate).
    destruct (max_finite qs Hne) as (mq & Hmq & Hin & Hub).
    rewrite Hmq in Hm. injection Hm as <-. split.
    + apply list_elem_of_fmap. by exists mq.
    + intros x (q & -> & Hq)%list_elem_of_fmap. simpl. by apply Hub.
Qed.

(** C6, for kernels over at least one cell. [~k] returns [self], allocates no
    kernel, toggles the direction of the object at [self], and binds its
    pseudotime to [m - old] where [m] is the maximum of the old pseudotime;
    between finite entries the order is reversed: an entry that was not
    below another is not above it afterwards. *)
Theorem invert_toggles_in_place
    (st : store) (self : loc) (k : PseudotimeKernel) (pseudotime : list float) :
  kernels st !! self = Some k →
  arrays st !! _pseudotime k = Some (FloatArray pseudotime) →
  pseudotime ≠ [] →
  ∃ st' k' m,
    __invert__ self st = (Ok self, st')
    ∧ dom (kernels st') = dom (kernels st)
    ∧ kernels st' !! self = Some k'
    ∧ _backward k' = negb (_backward k)
    ∧ is_maximum m pseudotime
    ∧ arrays st' !! _pseudotime k' = Some (FloatArray (map (fsub m) pseudotime))
    ∧ (∀ a b, a ∈ pseudotime → b ∈ pseudotime → fle a b → isnan m = false →
         fle (fsub m b) (fsub m a)).
Proof.
  intros Hk Hp Hne. destruct (max_nonempty _ Hne) as [m Hm].
  eexists _, _, m. split; [by apply (invert_run st self k pseudotime m)|].
  unfold inverted_store; simpl. split_and!.
  - rewrite dom_insert_L. apply elem_of_dom_2 in Hk.
    apply leibniz_equiv. apply subseteq_union_1. by apply singleton_subseteq_l.
  - apply lookup_insert_eq.
  - reflexivity.
  - by apply max_is_maximum.
  - apply lookup_insert_eq.
  - intros a b _ _ Hab Hnan. destruct m as [mq|]; [|done].
    destruct a as [x|], b as [y|]; try done. simpl in *. by apply sub_le_sub.
Qed.

Lemma Qc_le_false (x y : Q) : Qle_bool (Q2Qc x) (Q2Qc y) = false → ¬ (Q2Qc x <= Q2Qc y)%Qc.
Proof. intros Hb Hle. apply Qc_leb_le in Hle. unfold Qc_leb in Hle. congruence. Qed.

(** The maximum of [1, 3, 2] is 3. *)
Lemma is_maximum_sample (m : float) :
  is_maximum m [Fin 1; Fin (Q2Qc 3); Fin (Q2Qc 2)] → m = Fin (Q2Qc 3).
Proof.
  intros [[Hnan _] | (_ & Hin & Hub)].
  - exfalso. repeat (apply elem_of_cons in Hnan as [Hnan | Hnan]; [discriminate|]).
    by apply elem_of_nil in Hnan.
  - pose proof (Hub (Fin (Q2Qc 3))) as H3.
    apply elem_of_cons in Hin as [-> | Hin].
    { exfalso. refine (Qc_le_false 3 1 _ (H3 _)); [reflexivity|].
      apply list_elem_of_further, list_elem_of_here. }
    apply elem_of_cons in Hin as [-> | Hin]; [done|].
    apply elem_of_cons in Hin as [-> | Hin]; [|by apply elem_of_nil in Hin].
    exfalso. refine (Qc_le_false 3 2 _ (H3 _)); [reflexivity|].
    apply list_elem_of_further, list_elem_of_here.
Qed.

(** On the pseudotime [1, 3, 2] the inverted kernel is backward and holds
    [2, 0, 1]. *)
Lemma invert_toggles_in_place_witness :
  ∃ st' k' qs,
    __invert__ 1%positive sample_store = (Ok 1%positive, st')
    ∧ dom (kernels st') = dom (kernels sample_store)
    ∧ kernels st' !! 1%positive = Some k'
    ∧ _backward k' = true
    ∧ arrays st' !! _pseudotime k' = Some (FloatArray (map Fin qs))
    ∧ map this qs = [2; 0; 1]%Q.
Proof.
  destruct (invert_toggles_in_place sample_store 1%positive sample_kernel
              [Fin 1; Fin (Q2Qc 3); Fin (Q2Qc 2)] eq_refl eq_refl)
    as (st' & k' & m & Hrun & Hdom & Hk' & Hb & Hmax & Hp & _); [discriminate|].
  apply is_maximum_sample in Hmax. subst m.
  exists st', k', [Q2Qc 3 - 1; Q2Qc 3 - Q2Qc 3; Q2Qc 3 - Q2Qc 2]%Qc.
  split; [exact Hrun|]. split; [exact Hdom|]. split; [exact Hk'|].
  split; [exact Hb|]. split; [exact Hp|]. reflexivity.
Defined.

(** C6 fails as stated on a kernel over no cells: [np.max] raises on the empty
    pseudotime, so [~k] returns no object. *)
Lemma invert_raises_without_cells :
  kernels empty_store !! 1%positive = Some empty_kernel
  ∧ arrays empty_store !! _pseudotime empty_kernel = Some (FloatArray [])
  ∧ ∃ st',
      __invert__ 1%positive empty_store
      = (Raise (ValueError "zero-size array to reduction operation maximum which has no identity"),
         st').
Proof.
  split; [reflexivity|]. split; [reflexivity|]. eexists. vm_compute. reflexivity.
Qed.






(** *** C5: [copy] *)

Lemma fresh_lookup_ne {A} (m : gmap loc A) (l : loc) (x : A) :
  m !! l = Some x → fresh (dom m) ≠ l.
Proof. intros H <-. apply elem_of_dom_2 in H. by apply is_fresh in H. Qed.

Lemma init_run (st : store) (adata : loc) (ad : AnnData) (backward : bool)
    (time_key : string) (conn : knn) (pseudotime : list float) :
  adatas st !! adata = Some ad →
  _read_from_adata ad backward time_key = Ok (conn, pseudotime) →
  __init__ adata backward time_key st =
    (Ok (fresh (dom (kernels st))),
     {| adatas := adatas st;
        arrays := <[fresh (dom (arrays st)) := FloatArray pseudotime]> (arrays st);
        matrices := matrices st;
        kernels := <[fresh (dom (kernels st)) :=
                      {| _adata := adata; _backward := backward; _conn := conn;
                         _time_key := time_key; _pseudotime := fresh (dom (arrays st));
                         _params := ∅; _cond_num := None; _transition_matrix := None |}]>
                   (kernels st) |}).
Proof.
  intros Had Hread. unfold __init__, bind, get_adata, lift. rewrite Had, Hread. reflexivity.
Qed.

(** What [copy] does. When the constructor still succeeds on the shared
    data container, [copy] returns a kernel object that did not exist before
    and leaves the original object and every existing buffer as they were. The
    copy has the direction, time key, parameters and condition number of the
    original; its pseudotime is a buffer that did not exist before, with
    the contents of the original's; its transition matrix is a sparse-matrix
    object that did not exist before, whose [data], [indices] and [indptr]
    are the very buffers of the original's matrix. *)
Theorem copy_is_shallow
    (st : store) (self : loc) (k : PseudotimeKernel) (ad : AnnData) (conn : knn)
    (pseudotime0 : list float) (a : ndarray) (t : loc) (m : csr_matrix) :
  kernels st !! self = Some k →
  adatas st !! _adata k = Some ad →
  _read_from_adata ad (_backward k) (_time_key k) = Ok (conn, pseudotime0) →
  arrays st !! _pseudotime k = Some a →
  _transition_matrix k = Some t →
  matrices st !! t = Some m →
  ∃ st' pk k' t',
    copy self st = (Ok pk, st')
    ∧ (pk ∉ dom (kernels st))
    ∧ kernels st' !! self = Some k
    ∧ kernels st' !! pk = Some k'
    ∧ _backward k' = _backward k
    ∧ _time_key k' = _time_key k
    ∧ _params k' = _params k
    ∧ _cond_num k' = _cond_num k
    ∧ (_pseudotime k' ∉ dom (arrays st))
    ∧ arrays st' !! _pseudotime k' = Some a
    ∧ _transition_matrix k' = Some t'
    ∧ (t' ∉ dom (matrices st))
    ∧ matrices st' !! t' = Some m
    ∧ matrices st' !! t = Some m
    ∧ (∀ l x, arrays st !! l = Some x → arrays st' !! l = Some x).
Proof.
  intros Hk Had Hread Hp Ht Hm.
  pose proof (init_run st _ _ _ _ _ _ Had Hread) as Hinit.
  set (p1 := fresh (dom (arrays st))) in *.
  set (pk := fresh (dom (kernels st))) in *.
  assert (Hp1 : p1 ≠ _pseudotime k) by (by eapply fresh_lookup_ne).
  assert (Hpk : pk ≠ self) by (by eapply fresh_lookup_ne).
  set (arrays1 := <[p1 := FloatArray pseudotime0]> (arrays st)).
  set (p2 := fresh (dom arrays1)).
  set (t' := fresh (dom (matrices st))).
  assert (Hp2 : p2 ∉ dom (arrays st)).
  { intros Hin. apply (is_fresh (dom arrays1)). fold p2. unfold arrays1.
    rewrite dom_insert_L. set_solver. }
  eexists _, pk, _, t'. split.
  - unfold copy, bind, get_kernel. rewrite Hk, Hinit. simpl.
    unfold copy_ndarray, bind, get_array, alloc_array. simpl.
    rewrite lookup_insert_ne by exact Hp1. rewrite Hp. simpl. rewrite Ht.
    unfold copy_csr_matrix, bind, get_matrix, alloc_matrix, ret. simpl. rewrite Hm. simpl.
    unfold get_kernel, set_kernel. simpl. rewrite lookup_insert_eq. simpl.
    rewrite insert_insert_eq. reflexivity.
  - simpl. split; [apply is_fresh|]. split; [by rewrite lookup_insert_ne|].
    split; [apply lookup_insert_eq|]. simpl. split_and!; try reflexivity.
    + exact Hp2.
    + fold arrays1. fold p2. apply lookup_insert_eq.
    + apply is_fresh.
    + fold t'. apply lookup_insert_eq.
    + fold t'. rewrite lookup_insert_ne; [exact Hm|]. by eapply fresh_lookup_ne.
    + intros l x Hl. fold arrays1. fold p2.
      assert (p2 ≠ l) by (intros <-; apply Hp2; by eapply elem_of_dom_2).
      assert (p1 ≠ l) by (by eapply fresh_lookup_ne).
      unfold arrays1. by rewrite !lookup_insert_ne.
Qed.

Lemma copy_is_shallow_witness :
  ∃ st' pk k' t',
    copy 1%positive example_store = (Ok pk, st')
    ∧ (pk ∉ dom (kernels example_store))
    ∧ kernels st' !! 1%positive = Some example_kernel
    ∧ kernels st' !! pk = Some k'
    ∧ _backward k' = _backward example_kernel
    ∧ _time_key k' = _time_key example_kernel
    ∧ _params k' = _params example_kernel
    ∧ _cond_num k' = _cond_num example_kernel
    ∧ (_pseudotime k' ∉ dom (arrays example_store))
    ∧ arrays st' !! _pseudotime k' = Some (FloatArray [Fin 0; Fin 1])
    ∧ _transition_matrix k' = Some t'
    ∧ (t' ∉ dom (matrices example_store))
    ∧ matrices st' !! t' = Some {| data := 2%positive; indices := 3%positive;
                                   indptr := 4%positive; shape := (2, 2) |}
    ∧ matrices st' !! 1%positive = Some {| data := 2%positive; indices := 3%positive;
                                            indptr := 4%positive; shape := (2, 2) |}
    ∧ (∀ l x, arrays example_store !! l = Some x → arrays st' !! l = Some x).
Proof.
  apply (copy_is_shallow example_store 1%positive example_kernel example_adata
           [[Fin 0; Fin 1]; [Fin 1; Fin 0]] [Fin 0; Fin 1] (FloatArray [Fin 0; Fin 1])
           1%positive).
  - reflexivity.
  - reflexivity.
  - reflexivity.
  - reflexivity.
  - reflexivity.
  - reflexivity.
Defined.

(** C5 is broken by the code. On [example_store] the copy of kernel 1 is
    kernel 2; its pseudotime is a buffer of its own, but the buffer behind its
    transition matrix is buffer 2, the buffer of the original: [copy.copy] on
    the sparse matrix copies the object, not its arrays. An item assignment
    through the copy changes what the original's transition matrix holds. *)
Lemma copy_shares_transition_matrix_memory :
  ∃ st1 st2 pk shared,
    copy 1%positive example_store = (Ok pk, st1)
    ∧ pk ≠ 1%positive
    ∧ transition_matrix_data st1 pk = Some (shared, FloatArray [Fin 1; Fin 1])
    ∧ transition_matrix_data st1 1%positive = Some (shared, FloatArray [Fin 1; Fin 1])
    ∧ setitem shared 0 (Fin 0) st1 = (Ok tt, st2)
    ∧ transition_matrix_data st2 1%positive = Some (shared, FloatArray [Fin 0; Fin 1]).
Proof.
  eexists _, _, 2%positive, 2%positive.
  split; [vm_compute; reflexivity|].
  split; [done|].
  split; [vm_compute; reflexivity|].
  split; [vm_compute; reflexivity|].
  split; vm_compute; reflexivity.
Qed.

(** *** C7: recomputation with the same parameters *)

Section compute_transition_matrix_properties.

Variable SoftThresholdScheme_bias_knn : bias_fn.
Variable HardThresholdScheme_bias_knn : bias_fn.
Variable row_normalize : knn → res (list float * list Z * list Z).

#[local] Abbreviation compute := (compute_transition_matrix SoftThresholdScheme_bias_knn
                       HardThresholdScheme_bias_knn row_normalize).
#[local] Abbreviation select := (select_scheme SoftThresholdScheme_bias_knn HardThresholdScheme_bias_knn).

Lemma with_params_id (k : PseudotimeKernel) : with_params (_params k) k = k.
Proof. by destruct k. Qed.

Lemma set_kernel_id (st : store) (self : loc) (k : PseudotimeKernel) :
  kernels st !! self = Some k → set_kernel self k st = (Ok tt, st).
Proof. intros Hk. unfold set_kernel. rewrite (insert_id _ _ _ Hk). by destruct st. Qed.

(** The kernel at [self] holds the result computed for these arguments. *)
Definition cached (st : store) (self : loc) (threshold_scheme : threshold_scheme_arg)
    (frac_to_keep b nu : float) (kwargs : gmap string pyval) : Prop :=
  ∃ k ad n ps kw,
    kernels st !! self = Some k
    ∧ adatas st !! _adata k = Some ad
    ∧ n_neighbors_of ad (_conn k) = Ok n
    ∧ select threshold_scheme frac_to_keep b nu n kwargs = Ok (ps, kw)
    ∧ _params k = cache_key ps.1 kw
    ∧ is_Some (_transition_matrix k).

Lemma compute_hit (st : store) (self : loc) (threshold_scheme : threshold_scheme_arg)
    (frac_to_keep b nu : float) (kwargs : gmap string pyval) :
  cached st self threshold_scheme frac_to_keep b nu kwargs →
  compute self threshold_scheme frac_to_keep b nu kwargs st = (Ok self, st).
Proof.
  intros (k & ad & n & ps & kw & Hk & Had & Hn & Hsel & Hpar & Htm).
  unfold compute_transition_matrix, bind, get_kernel, get_adata, lift.
  rewrite Hk, Had, Hn, Hsel. unfold Kernel__reuse_cache, bind, get_kernel. rewrite Hk.
  rewrite <- Hpar, with_params_id, (set_kernel_id _ _ _ Hk). unfold ret.
  rewrite bool_decide_eq_true_2 by done. by rewrite bool_decide_eq_true_2.
Qed.

Lemma compute_caches (st st1 : store) (self r : loc) (threshold_scheme : threshold_scheme_arg)
    (frac_to_keep b nu : float) (kwargs : gmap string pyval) :
  compute self threshold_scheme frac_to_keep b nu kwargs st = (Ok r, st1) →
  r = self ∧ cached st1 self threshold_scheme frac_to_keep b nu kwargs.
Proof.
  unfold compute_transition_matrix, bind, get_kernel, get_adata, lift.
  destruct (kernels st !! self) as [k|] eqn:Hk; [|discriminate].
  destruct (adatas st !! _adata k) as [ad|] eqn:Had; [|discriminate].
  destruct (n_neighbors_of ad (_conn k)) as [n|] eqn:Hn; [|discriminate].
  destruct (select _ _ _ _ n kwargs) as [[ps kw]|] eqn:Hsel; [|discriminate].
  unfold Kernel__reuse_cache, bind, get_kernel. rewrite Hk.
  unfold set_kernel, ret. simpl.
  destruct (bool_decide (_params k = cache_key ps.1 kw)
            && bool_decide (is_Some (_transition_matrix k))) eqn:Hhit.
  - intros [= <- <-]. split; [done|].
    apply andb_true_iff in Hhit as [_ Htm%bool_decide_eq_true].
    exists (with_params (cache_key ps.1 kw) k), ad, n, ps, kw. simpl.
    by rewrite lookup_insert_eq.
  - unfold get_float_array, bind, get_array. simpl.
    destruct (arrays st !! _pseudotime k) as [[pseudotime|]|]; try discriminate.
    unfold ret. destruct (ps.2 (_conn k) pseudotime kw) as [biased|]; [|discriminate].
    unfold Kernel__compute_transition_matrix, bind, lift.
    destruct (row_normalize biased) as [[[d i] p]|]; [|discriminate].
    unfold alloc_array, alloc_matrix, get_kernel, set_kernel. simpl.
    rewrite lookup_insert_eq. intros [= <- <-]. split; [done|].
    eexists _, ad, n, ps, kw. simpl. rewrite lookup_insert_eq.
    split_and!; done.
Qed.

(** C7. When a call of [compute_transition_matrix] has returned, a second call
    with the same arguments returns [self] and leaves the whole store as it
    was, the stored transition matrix included: the parameters of the first
    call are the stored cache key and a transition matrix is present. *)
Theorem recompute_with_same_parameters_is_noop
    (st st1 : store) (self r : loc) (threshold_scheme : threshold_scheme_arg)
    (frac_to_keep b nu : float) (kwargs : gmap string pyval) :
  compute self threshold_scheme frac_to_keep b nu kwargs st = (Ok r, st1) →
  r = self
  ∧ compute self threshold_scheme frac_to_keep b nu kwargs st1 = (Ok self, st1)
  ∧ ∃ k1, kernels st1 !! self = Some k1 ∧ is_Some (_transition_matrix k1).
Proof.
  intros Hrun. apply compute_caches in Hrun as [-> Hc]. split; [done|].
  split; [by apply compute_hit|].
  destruct Hc as (k & _ & _ & _ & _ & Hk & _ & _ & _ & _ & Htm). eauto.
Qed.

End compute_transition_matrix_properties.

Lemma recompute_with_same_parameters_is_noop_witness :
  let run := compute_transition_matrix example_bias_knn example_bias_knn
               example_row_normalize 1%positive (ArgStr "hard")
               (Fin (Q2Qc (3 # 10))) (Fin (Q2Qc 10)) (Fin (Q2Qc (1 # 2))) ∅ in
  let st1 := (run example_store).2 in
  1%positive = 1%positive
  ∧ run st1 = (Ok 1%positive, st1)
  ∧ ∃ k1, kernels st1 !! 1%positive = Some k1 ∧ is_Some (_transition_matrix k1).
Proof.
  intros run st1.
  apply (recompute_with_same_parameters_is_noop example_bias_knn example_bias_knn
           example_row_normalize example_store st1 1%positive 1%positive (ArgStr "hard")
           (Fin (Q2Qc (3 # 10))) (Fin (Q2Qc 10)) (Fin (Q2Qc (1 # 2))) ∅).
  vm_compute. reflexivity.
Defined.

End pseudotime_kernel.

(** ** Terminal states of an estimator *)

Module terminal_states.

(** A pandas categorical series over the cells: the ordered categories and,
    per cell, the index of its category or nothing for a missing value. *)
Record categorical := {
  categories : list string;
  codes : list (option nat) }.

(** [StatesHolder(assignment=..., colors=...)] of the tests: one color per
    category. *)
Record StatesHolder := {
  assignment : categorical;
  colors : list string }.

(** The part of an estimator the terminal-state operations touch: the cell
    names of its data container and the terminal states, absent until they
    are computed or set. *)
Record estimator := {
  obs_names : list string;
  _term_states : option StatesHolder }.

(** The label of cell [i]: [None] for an unassigned cell. *)
Definition label (c : categorical) (i : nat) : option string :=
  code ← codes c !! i;
  k ← code;
  categories c !! k.

Fixpoint index_of (x : string) (l : list string) : option nat :=
  match l with
  | [] => None
  | y :: l' => if decide (x = y) then Some 0 else S <$> index_of x l'
  end.

Definition categorical_of (cats : list string) (labels : list (option string)) : categorical :=
  {| categories := cats;
     codes := map (λ l, s ← l; index_of s cats) labels |}.

Definition join (names : list string) : string :=
  foldr (λ n acc, if decide (acc = "") then n else n +:+ ", " +:+ acc) "" names.

(** Modelled from the spec: [rename_terminal_states], absent from the sources.
    It accepts [{old_name: new_name}]; it is a fatal error to call it before
    terminal states exist, to name an old state that is not a category, or to
    make two categories collide. Otherwise every category is replaced by its
    new name; the per-cell codes and the colors are kept. *)
Definition rename_terminal_states (new_names : gmap string string) (est : estimator)
  : res estimator :=
  match _term_states est with
  | None => Raise (RuntimeError "Compute terminal states first.")
  | Some ts =>
      let cats := categories (assignment ts) in
      let invalid := filter (λ old, old ∉ cats) (map fst (map_to_list new_names)) in
      if decide (invalid = []) then
        let names_after_renaming := map (λ n, default n (new_names !! n)) cats in
        if decide (NoDup names_after_renaming) then
          Ok {| obs_names := obs_names est;
                _term_states :=
                  Some {| assignment := {| categories := names_after_renaming;
                                           codes := codes (assignment ts) |};
                          colors := colors ts |} |}
        else Raise (ValueError ("After renaming, terminal states will no longer be unique: `"
                                +:+ join names_after_renaming +:+ "`."))
      else Raise (ValueError ("Invalid terminal states names: `" +:+ join invalid +:+ "`."))
  end.

(** The state a manual mapping gives to a cell: the state that lists it, the
    later entry when several do, nothing when none does. *)
Definition assigned_state (states : list (string * list string)) (cell : string)
  : option string :=
  foldl (λ acc entry, if decide (cell ∈ entry.2) then Some entry.1 else acc) None states.

Section set_terminal_states.

(** The palette that gives [n] categories their colors is not part of the
    sources. *)
Variable create_categorical_colors : nat → list string.

(** Modelled from the spec: [set_terminal_states], absent from the sources:
    the manual override that accepts an explicit mapping
    [{state_name: list of cell identifiers}]. The automatic prediction and the
    manual override are mutually exclusive sources of truth: the new
    assignment is built from the mapping alone. *)
Definition set_terminal_states (states : list (string * list string)) (est : estimator)
  : estimator :=
  {| obs_names := obs_names est;
     _term_states :=
       Some {| assignment := categorical_of (map fst states)
                               (map (λ cell, assigned_state states cell) (obs_names est));
               colors := create_categorical_colors (length states) |} |}.

End set_terminal_states.

(** A small estimator whose four cells were assigned by a prediction. *)
Definition example_estimator : estimator :=
  {| obs_names := ["cell_0"; "cell_1"; "cell_2"; "cell_3"];
     _term_states :=
       Some {| assignment := {| categories := ["0"; "1"];
                                codes := [Some 0; None; Some 1; Some 0] |};
               colors := ["#000000"; "#ffffff"] |} |}.

(** *** C8: renaming with an empty mapping *)

(** C8. On an estimator with terminal states (whose categories are distinct,
    as the categories of a categorical are), renaming with the empty mapping
    returns an estimator equal to the given one: the categories after the call
    are the categories before it. *)
Theorem rename_with_empty_mapping_is_noop (est : estimator) (ts : StatesHolder) :
  _term_states est = Some ts →
  NoDup (categories (assignment ts)) →
  ∃ est' ts',
    rename_terminal_states ∅ est = Ok est'
    ∧ _term_states est' = Some ts'
    ∧ categories (assignment ts') = categories (assignment ts)
    ∧ est' = est.
Proof.
  intros Hts Hnodup.
  assert (Hsame : map (λ n : string, default n ((∅ : gmap string string) !! n))
                    (categories (assignment ts)) = categories (assignment ts)).
  { rewrite <- (map_id (categories (assignment ts))) at 2.
    apply map_ext. intros n. by rewrite lookup_empty. }
  exists est, ts. split; [|by split_and!].
  unfold rename_terminal_states. rewrite Hts, map_to_list_empty. simpl.
  rewrite Hsame. rewrite decide_True by done.
  f_equal. destruct est as [names st]. simpl in *. subst st.
  by destruct ts as [[cats cds] cols].
Qed.

Lemma rename_with_empty_mapping_is_noop_witness :
  ∃ est' ts',
    rename_terminal_states ∅ example_estimator = Ok est'
    ∧ _term_states est' = Some ts'
    ∧ categories (assignment ts') = ["0"; "1"]
    ∧ est' = example_estimator.
Proof.
  apply (rename_with_empty_mapping_is_noop example_estimator
           {| assignment := {| categories := ["0"; "1"];
                               codes := [Some 0; None; Some 1; Some 0] |};
              colors := ["#000000"; "#ffffff"] |}).
  - reflexivity.
  - simpl. apply NoDup_cons. split.
    + intros Hin. apply list_elem_of_singleton in Hin. discriminate.
    + apply NoDup_singleton.
Defined.

(** *** C10: the manual override *)

(** No cell is listed under two different state names. *)
Definition consistent (states : list (string * list string)) : Prop :=
  ∀ e1 e2 cell, e1 ∈ states → e2 ∈ states → cell ∈ e1.2 → cell ∈ e2.2 → e1.1 = e2.1.

Lemma assigned_state_keep (states : list (string * list string)) (cell s : string) :
  (∀ e, e ∈ states → cell ∈ e.2 → e.1 = s) →
  foldl (λ acc e, if decide (cell ∈ e.2) then Some e.1 else acc) (Some s) states = Some s.
Proof.
  induction states as [|e l IH]; intros Hs; simpl; [done|].
  destruct (decide (cell ∈ e.2)) as [Hin|_].
  - rewrite (Hs e); [|apply list_elem_of_here|exact Hin].
    apply IH. intros e' He'. apply Hs. by apply list_elem_of_further.
  - apply IH. intros e' He'. apply Hs. by apply list_elem_of_further.
Qed.

Lemma assigned_state_listed (states : list (string * list string)) (cell s : string)
    (acc : option string) :
  (∀ e, e ∈ states → cell ∈ e.2 → e.1 = s) →
  (∃ e, e ∈ states ∧ cell ∈ e.2) →
  foldl (λ acc e, if decide (cell ∈ e.2) then Some e.1 else acc) acc states = Some s.
Proof.
  revert acc. induction states as [|e l IH]; intros acc Hs (e0 & He0 & Hcell).
  - by apply elem_of_nil in He0.
  - simpl. destruct (decide (cell ∈ e.2)) as [Hin|Hnotin].
    + rewrite (Hs e); [|apply list_elem_of_here|exact Hin].
      apply assigned_state_keep. intros e' He'. apply Hs. by apply list_elem_of_further.
    + apply IH.
      * intros e' He'. apply Hs. by apply list_elem_of_further.
      * apply elem_of_cons in He0 as [-> | He0]; [done|]. by exists e0.
Qed.

Lemma assigned_state_unlisted (states : list (string * list string)) (cell : string)
    (acc : option string) :
  (∀ e, e ∈ states → cell ∉ e.2) →
  foldl (λ acc e, if decide (cell ∈ e.2) then Some e.1 else acc) acc states = acc.
Proof.
  revert acc. induction states as [|e l IH]; intros acc Hs; simpl; [done|].
  rewrite decide_False by (apply Hs, list_elem_of_here).
  apply IH. intros e' He'. apply Hs. by apply list_elem_of_further.
Qed.

Lemma index_of_elem (x : string) (l : list string) :
  x ∈ l → ∃ k, index_of x l = Some k ∧ l !! k = Some x.
Proof.
  induction l as [|y l IH]; intros Hin.
  - by apply elem_of_nil in Hin.
  - simpl. destruct (decide (x = y)) as [->|Hne].
    + by exists 0.
    + apply elem_of_cons in Hin as [-> | Hin]; [done|].
      destruct (IH Hin) as (k & -> & Hk). by exists (S k).
Qed.

Lemma label_categorical_of (cats : list string) (labels : list (option string))
    (i : nat) (l : option string) :
  labels !! i = Some l →
  (∀ s, l = Some s → s ∈ cats) →
  label (categorical_of cats labels) i = l.
Proof.
  intros Hi Hin. unfold label, categorical_of. simpl.
  rewrite list_lookup_fmap, Hi. simpl. destruct l as [s|]; [|done]. simpl.
  destruct (index_of_elem s cats (Hin s eq_refl)) as (k & -> & Hk). exact Hk.
Qed.

(** C10. Whatever the previous terminal states of the estimator were, after
    [set_terminal_states] with a mapping that lists no cell under two names,
    a cell of the data set that the mapping lists under a state name carries
    that name, and a cell that the mapping does not list is unassigned. *)
Theorem set_terminal_states_replaces_assignment
    (create_categorical_colors : nat → list string)
    (states : list (string * list string)) (est : estimator) (i : nat) (cell : string) :
  consistent states →
  obs_names est !! i = Some cell →
  ∃ ts,
    _term_states (set_terminal_states create_categorical_colors states est) = Some ts
    ∧ (∀ e, e ∈ states → cell ∈ e.2 → label (assignment ts) i = Some e.1)
    ∧ ((∀ e, e ∈ states → cell ∉ e.2) → label (assignment ts) i = None).
Proof.
  intros Hcons Hcell. eexists. split; [reflexivity|]. simpl. split.
  - intros e He Hin. apply label_categorical_of.
    + rewrite list_lookup_fmap, Hcell. simpl. f_equal.
      apply assigned_state_listed; [|by exists e].
      intros e' He' Hin'. by apply (Hcons e' e cell).
    + intros s [= <-]. apply list_elem_of_fmap. by exists e.
  - intros Hnone. apply label_categorical_of.
    + rewrite list_lookup_fmap, Hcell. simpl. f_equal.
      by apply assigned_state_unlisted.
    + intros s Hs. discriminate.
Qed.

(** The scenario of the test: the cells predicted as state ["0"] are passed as
    the manual state ["foo"]; [cell_2], predicted as ["1"], is not listed. *)
Lemma set_terminal_states_replaces_assignment_witness :
  let states := [("foo", ["cell_0"; "cell_3"])] in
  ∃ ts,
    _term_states (set_terminal_states (λ n, repeat "#000000" n) states example_estimator)
      = Some ts
    ∧ label (assignment ts) 0 = Some "foo"
    ∧ label (assignment ts) 2 = None.
Proof.
  intros states.
  assert (Hcons : consistent states).
  { intros e1 e2 cell He1 He2 _ _. apply list_elem_of_singleton in He1, He2. by subst. }
  destruct (set_terminal_states_replaces_assignment (λ n, repeat "#000000" n) states
              example_estimator 0 "cell_0" Hcons eq_refl) as (ts & Hts & Hlisted & _).
  destruct (set_terminal_states_replaces_assignment (λ n, repeat "#000000" n) states
              example_estimator 2 "cell_2" Hcons eq_refl) as (ts' & Hts' & _ & Hunlisted).
  rewrite Hts in Hts'. injection Hts' as <-.
  exists ts. split; [exact Hts|]. split.
  - apply (Hlisted ("foo", ["cell_0"; "cell_3"])).
    + apply list_elem_of_here.
    + apply list_elem_of_here.
  - apply Hunlisted. intros e ->%list_elem_of_singleton. simpl.
    intros [Heq | Hin]%elem_of_cons; [discriminate|].
    apply list_elem_of_singleton in Hin. discriminate.
Defined.

End terminal_states.

(** ** Fate probabilities *)

Module fate_probabilities.

Import terminal_states.

(** A dense matrix of exact rationals, as a list of rows. *)
Definition matrix := list (list Qc).

Definition entry (T : matrix) (i j : nat) : Qc :=
  default 0%Qc (row ← T !! i; row !! j).

Definition total (xs : list Qc) : Qc := foldr Qcplus 0%Qc xs.

Definition Qc_eqb (x y : Qc) : bool := Qeq_bool x y.
Definition Qc_ltb (x y : Qc) : bool := negb (Qc_leb y x).

Lemma Qc_ltb_lt (x y : Qc) : Qc_ltb x y = true ↔ (x < y)%Qc.
Proof.
  unfold Qc_ltb. rewrite negb_true_iff. split.
  - intros H. apply Qcnot_le_lt. intros Hle%Qc_leb_le. congruence.
  - intros Hlt. destruct (Qc_leb y x) eqn:E; [|done].
    apply Qc_leb_le in E. by apply Qcle_not_lt in E.
Qed.

#[global] Instance Qclt_dec (x y : Qc) : Decision (x < y)%Qc.
Proof.
  refine (cast_if (decide (Qc_ltb x y = true))); abstract (by rewrite <- Qc_ltb_lt).
Defined.

#[global] Instance Qcle_dec (x y : Qc) : Decision (x <= y)%Qc.
Proof.
  refine (cast_if (decide (Qc_leb x y = true))); abstract (by rewrite <- Qc_leb_le).
Defined.

(** The cells with a missing label, and the cells of category [k]. *)
Definition transient_indices (cds : list (option nat)) : list nat :=
  omap id (imap (λ i c, match c with None => Some i | Some _ => None end) cds).

Definition group_indices (cds : list (option nat)) (k : nat) : list nat :=
  omap id (imap (λ i c, if decide (c = Some k) then Some i else None) cds).

(** The restriction of [T] to transient rows and transient columns. *)
Definition transient_block (T : matrix) (cds : list (option nat)) : matrix :=
  let trans := transient_indices cds in
  map (λ i, map (λ j, entry T i j) trans) trans.

(** The restriction of [T] to transient rows, the columns of each absorbing
    group collapsed by summation. *)
Definition absorbing_block (T : matrix) (cds : list (option nat)) (K : nat) : matrix :=
  map (λ i, map (λ k, total (map (λ j, entry T i j) (group_indices cds k))) (seq 0 K))
      (transient_indices cds).

Definition identity_minus (A : matrix) : matrix :=
  imap (λ i row, imap (λ j q, ((if decide (i = j) then 1 else 0) - q)%Qc) row) A.

(** *** The direct solver: Gauss-Jordan elimination on [A | B] *)

Definition scale (c : Qc) (r : list Qc) : list Qc := map (Qcmult c) r.
Definition minus (r s : list Qc) : list Qc := zip_with Qcminus r s.
Definition at_column (r : list Qc) (c : nat) : Qc := default 0%Qc (r !! c).

(** The first row with a non-zero entry in column [c], and the other rows. *)
Fixpoint find_pivot (c : nat) (rows : matrix) : option (list Qc * matrix) :=
  match rows with
  | [] => None
  | r :: rs =>
      if Qc_eqb (at_column r c) 0 then
        match find_pivot c rs with
        | Some (p, rest) => Some (p, r :: rest)
        | None => None
        end
      else Some (r, rs)
  end.

Fixpoint gauss_jordan (n c : nat) (reduced rows : matrix) : option matrix :=
  match n with
  | 0 => Some reduced
  | S n' =>
      match find_pivot c rows with
      | None => None
      | Some (p, rest) =>
          let p' := scale (/ at_column p c) p in
          let eliminate r := minus r (scale (at_column r c) p') in
          gauss_jordan n' (S c) (map eliminate reduced ++ [p']) (map eliminate rest)
      end
  end.

Definition solve_direct (A B : matrix) : res matrix :=
  match gauss_jordan (length A) 0 [] (zip_with app A B) with
  | Some rows => Ok (map (drop (length A)) rows)
  | None => Raise (RuntimeError "Matrix is exactly singular.")
  end.

(** [A X], and the system [A X = B]. *)
Definition dot (r s : list Qc) : Qc := total (zip_with Qcmult r s).

Definition column (X : matrix) (j : nat) : list Qc := map (λ row, at_column row j) X.

Definition mat_mul (A X : matrix) (K : nat) : matrix :=
  map (λ row, map (λ j, dot row (column X j)) (seq 0 K)) A.

(** *** Validation of the solved matrix *)

Definition count {A} (f : A → bool) (l : list A) : nat := length (List.filter f l).

(** [np.isclose(a, b, rtol, atol)]: [|a - b| <= atol + rtol * |b|]. *)
Definition isclose (a b rtol atol : Qc) : bool :=
  Qc_leb (Qcabs (a - b)) (atol + rtol * Qcabs b).

(** The relative tolerance of the validation, and the absolute tolerance that
    [np.isclose] adds when the caller gives none. *)
Definition rtol : Qc := Q2Qc 0.001.
Definition isclose_atol : Qc := Q2Qc 0.00000001.

(** [~(x >= 0)] and [np.isclose(row.sum(), 1.0, rtol=1e-3)]. *)
Definition is_negative (x : Qc) : bool := negb (Qc_leb 0 x).
Definition sums_to_1 (row : list Qc) : bool := isclose (total row) 1 rtol isclose_atol.

Definition n_negative (probs : matrix) : nat := count is_negative (concat probs).

Definition n_not_summing_to_1 (probs : matrix) : nat :=
  count (λ row, negb (sums_to_1 row)) probs.

Definition one_hot (K k : nat) : list Qc :=
  map (λ j, if decide (j = k) then 1%Qc else 0%Qc) (seq 0 K).

(** The N x K matrix: a transient cell takes the next solved row (its first
    [K] columns), an absorbing cell the one-hot row of its group. *)
Fixpoint embed (cds : list (option nat)) (K : nat) (X : matrix) : matrix :=
  match cds with
  | [] => []
  | None :: cds' => take K (hd [] X) :: embed cds' K (tl X)
  | Some k :: cds' => one_hot K k :: embed cds' K X
  end.

Section compute_fate_probabilities.

(** What the two error messages go on to say after the count: advice on the
    solver, which the tests do not match. *)
Variable negative_advice sum_advice : string.

(** [_solve_lin_system]: the direct solver, an iterative one, or the canned
    result of a test. *)
Variable _solve_lin_system : matrix → matrix → res matrix.

(** Modelled from the spec: the post-solve validation of the fate-probability
    matrix, absent from the sources. No entry may be negative and every row
    must sum to 1 within the relative tolerance 1e-3 of [np.isclose]; a
    violation is a hard error whose message starts with the exact count. The
    entries are checked before the rows, as the message the test on negative
    entries expects requires. *)
Definition check_fate_probabilities (probs : matrix) : res unit :=
  let negative := n_negative probs in
  if 0 <? negative then
    Raise (ValueError ("`" +:+ str_of_nat negative +:+ "` value(s) are negative."
                       +:+ negative_advice))
  else
    let bad := n_not_summing_to_1 probs in
    if 0 <? bad then
      Raise (ValueError ("`" +:+ str_of_nat bad +:+ "` value(s) do not sum to 1 (rtol=1e-3)."
                         +:+ sum_advice))
    else Ok tt.

(** Modelled from the spec: [compute_fate_probabilities], absent from the
    sources. It is a fatal error to call it before terminal states exist.
    Otherwise it solves [(I - Q) X = R] for the transient cells, embeds the
    solution into the N x K matrix and validates it. *)
Definition compute_fate_probabilities (T : matrix) (term_states : option StatesHolder)
    : res matrix :=
  match term_states with
  | None => Raise (RuntimeError "Compute terminal states first.")
  | Some ts =>
      let cds := codes (assignment ts) in
      let K := length (categories (assignment ts)) in
      match _solve_lin_system (identity_minus (transient_block T cds))
                              (absorbing_block T cds K) with
      | Raise e => Raise e
      | Ok X =>
          if decide (length X = length (transient_indices cds)
                     ∧ Forall (λ row, K ≤ length row) X) then
            let probs := embed cds K X in
            match check_fate_probabilities probs with
            | Raise e => Raise e
            | Ok _ => Ok probs
            end
          else Raise (ValueError "shape mismatch")
      end
  end.

End compute_fate_probabilities.

(** The rows of the transient cells: [fate_probabilities[assignment.isna()]]. *)
Definition transient_rows (cds : list (option nat)) (probs : matrix) : matrix :=
  omap id (zip_with (λ c row, match c with None => Some row | Some _ => None end) cds probs).

(** *** The 12-state absorbing chain of the tests *)

Definition of_decimals (rows : list (list Q)) : matrix := map (map Q2Qc) rows.

Definition transition_matrix : matrix := of_decimals
  [ [0.0; 0.8; 0.2; 0.0; 0.0; 0.0; 0.0; 0.0; 0.0; 0.0; 0.0; 0.0];
    [0.2; 0.0; 0.6; 0.2; 0.0; 0.0; 0.0; 0.0; 0.0; 0.0; 0.0; 0.0];
    [0.6; 0.2; 0.0; 0.2; 0.0; 0.0; 0.0; 0.0; 0.0; 0.0; 0.0; 0.0];
    [0.0; 0.05; 0.05; 0.0; 0.45; 0.45; 0.0; 0.0; 0.0; 0.0; 0.0; 0.0];
    [0.0; 0.0; 0.0; 0.25; 0.0; 0.25; 0.4; 0.0; 0.0; 0.1; 0.0; 0.0];
    [0.0; 0.0; 0.0; 0.25; 0.25; 0.0; 0.1; 0.0; 0.0; 0.4; 0.0; 0.0];
    [0.0; 0.0; 0.0; 0.0; 0.05; 0.05; 0.0; 0.7; 0.2; 0.0; 0.0; 0.0];
    [0.0; 0.0; 0.0; 0.0; 0.0; 0.0; 0.0; 1.0; 0.0; 0.0; 0.0; 0.0];
    [0.0; 0.0; 0.0; 0.0; 0.0; 0.0; 0.8; 0.2; 0.0; 0.0; 0.0; 0.0];
    [0.0; 0.0; 0.0; 0.0; 0.05; 0.05; 0.0; 0.0; 0.0; 0.0; 0.7; 0.2];
    [0.0; 0.0; 0.0; 0.0; 0.0; 0.0; 0.0; 0.0; 0.0; 0.0; 1.0; 0.0];
    [0.0; 0.0; 0.0; 0.0; 0.0; 0.0; 0.0; 0.0; 0.0; 0.8; 0.2; 0.0] ]%Q.

Definition fate_probabilities_reference : matrix := of_decimals
  [ [0.5; 0.5];
    [0.5; 0.5];
    [0.5; 0.5];
    [0.5; 0.5];
    [0.60571429; 0.39428571];
    [0.39428571; 0.60571429];
    [0.94047619; 0.05952381];
    [0.95238095; 0.04761905];
    [0.05952381; 0.94047619];
    [0.04761905; 0.95238095] ]%Q.

(** Cells 7 and 10 are the terminal states; the other ten are unassigned. *)
Definition state_annotation : StatesHolder :=
  {| assignment :=
       {| categories := ["terminal_1"; "terminal_2"];
          codes := [None; None; None; None; None; None; None; Some 0; None; None;
                    Some 1; None] |};
     colors := ["#000000"; "#ffffff"] |}.

Definition atol : Qc := Q2Qc 0.000001.

(** Entrywise agreement within an absolute tolerance. *)
Definition allclose_b (eps : Qc) (X Y : matrix) : bool :=
  bool_decide (length X = length Y)
  && forallb (λ p, bool_decide (length p.1 = length p.2)
                   && forallb (λ q, Qc_leb (Qcabs (q.1 - q.2)) eps) (zip p.1 p.2))
             (zip X Y).

Definition allclose (eps : Qc) (X Y : matrix) : Prop :=
  Forall2 (Forall2 (λ x y, (Qcabs (x - y) <= eps)%Qc)) X Y.

(** Entrywise equality, decided on the canonical fractions. *)
Definition matrix_eqb (X Y : matrix) : bool :=
  bool_decide (length X = length Y)
  && forallb (λ p, bool_decide (length p.1 = length p.2)
                   && forallb (λ q, Qc_eqb q.1 q.2) (zip p.1 p.2))
             (zip X Y).

(** The canned solver results of the two validation tests: 194 transient
    cells (200 cells, 3 + 3 of them terminal), 6 columns, the first column
    set to 1, and then one row that sums to 1.01, or two negative entries. *)
Definition mocked_states : StatesHolder :=
  {| assignment := {| categories := ["x"; "y"];
                      codes := repeat (Some 0) 3 ++ repeat (Some 1) 3 ++ repeat None 194 |};
     colors := ["#000000"; "#ffffff"] |}.

Definition fate_prob_base : matrix := repeat (1%Qc :: repeat 0%Qc 5) 194.

Definition fate_prob_not_summing : matrix :=
  <[0 := Q2Qc 1.01 :: repeat 0%Qc 5]> fate_prob_base.

Definition fate_prob_negative : matrix :=
  <[0 := Q2Qc (-0.5) :: Q2Qc (-1.5) :: repeat 0%Qc 4]> fate_prob_base.



(** *** C1: the reference chain *)

Lemma forallb_zip_Forall2 {A B} (P : A → B → Prop) (f : A * B → bool)
    (l : list A) (k : list B) :
  (∀ x y, f (x, y) = true → P x y) →
  length l = length k →
  forallb f (zip l k) = true →
  Forall2 P l k.
Proof.
  intros Hf. revert k.
  induction l as [|x l IH]; intros [|y k] Hlen Hall; [constructor|done|done|].
  simpl in *. apply andb_true_iff in Hall as [Hxy Hall].
  constructor; [by apply Hf | apply IH; [lia | done]].
Qed.

Lemma allclose_b_true (eps : Qc) (X Y : matrix) :
  allclose_b eps X Y = true → allclose eps X Y.
Proof.
  unfold allclose_b, allclose. intros [Hlen Hall]%andb_true_iff.
  apply bool_decide_eq_true in Hlen.
  apply (forallb_zip_Forall2 _ _ X Y) with (3 := Hall); [|exact Hlen].
  intros r r' [Hl Hr]%andb_true_iff. apply bool_decide_eq_true in Hl.
  apply (forallb_zip_Forall2 _ _ r r') with (3 := Hr); [|exact Hl].
  intros x y Hxy. by apply Qc_leb_le.
Qed.

Lemma Qc_eqb_eq (x y : Qc) : Qc_eqb x y = true → x = y.
Proof. intros H. apply Qc_is_canon. by apply Qeq_bool_iff. Qed.

Lemma matrix_eqb_true (X Y : matrix) : matrix_eqb X Y = true → X = Y.
Proof.
  unfold matrix_eqb. intros [Hlen Hall]%andb_true_iff.
  apply bool_decide_eq_true in Hlen. apply list_eq_Forall2.
  apply (forallb_zip_Forall2 _ _ X Y) with (3 := Hall); [|exact Hlen].
  intros r r' [Hl Hr]%andb_true_iff. apply bool_decide_eq_true in Hl.
  apply list_eq_Forall2.
  apply (forallb_zip_Forall2 _ _ r r') with (3 := Hr); [|exact Hl].
  intros x y Hxy. by apply Qc_eqb_eq.
Qed.

(** C1. On the 12-state chain with the absorbing states 7 and 10, the fate
    probabilities computed with the direct solver exist, and the rows of the
    ten transient cells agree entrywise with the reference matrix within the
    absolute tolerance 1e-6. The solved rows satisfy [(I - Q) X = R]. *)
Theorem fate_probabilities_match_reference (negative_advice sum_advice : string) :
  ∃ probs X,
    compute_fate_probabilities negative_advice sum_advice solve_direct transition_matrix
      (Some state_annotation) = Ok probs
    ∧ transient_rows (codes (assignment state_annotation)) probs = X
    ∧ mat_mul (identity_minus (transient_block transition_matrix
                                 (codes (assignment state_annotation)))) X 2
      = absorbing_block transition_matrix (codes (assignment state_annotation)) 2
    ∧ allclose atol X fate_probabilities_reference.
Proof.
  destruct (compute_fate_probabilities negative_advice sum_advice solve_direct
              transition_matrix (Some state_annotation)) as [probs|e] eqn:Hrun;
    [|by vm_compute in Hrun].
  exists probs, (transient_rows (codes (assignment state_annotation)) probs).
  split; [reflexivity|]. split; [reflexivity|].
  assert (Hprobs : Ok probs = compute_fate_probabilities negative_advice sum_advice
                                solve_direct transition_matrix (Some state_annotation))
    by done.
  vm_compute in Hprobs. injection Hprobs as ->. split.
  - apply matrix_eqb_true. vm_compute. reflexivity.
  - apply allclose_b_true. vm_compute. reflexivity.
Qed.

(** *** C3: validation of the solved matrix *)

(** A row sums to 1 within the tolerance of [np.isclose]: the relative
    tolerance 1e-3 and the absolute tolerance 1e-8. *)
Definition within_tolerance (row : list Qc) : Prop :=
  (Qcabs (total row - 1) <= isclose_atol + rtol * Qcabs 1)%Qc.

#[global] Instance within_tolerance_dec (row : list Qc) : Decision (within_tolerance row).
Proof. unfold within_tolerance. apply _. Defined.




(** Every label is one of the [K] categories. *)
Definition valid_code (K : nat) (c : option nat) : Prop :=
  match c with Some k => k < K | None => True end.

#[global] Instance valid_code_dec (K : nat) (c : option nat) : Decision (valid_code K c).
Proof. destruct c as [k|]; simpl; apply _. Defined.















Section validation.

Variable negative_advice sum_advice : string.
Variable solver : matrix → matrix → res matrix.



(** The two tests, with the solver replaced by its canned result. *)
Example test_fate_probs_negative (T : matrix) :
  compute_fate_probabilities negative_advice sum_advice (λ _ _, Ok fate_prob_negative) T
    (Some mocked_states)
  = Raise (ValueError ("`2` value(s) are negative." +:+ negative_advice)).
Proof.
  unfold compute_fate_probabilities. rewrite decide_True.
  - vm_compute. reflexivity.
  - split; [vm_compute; reflexivity|]. eapply bool_decide_eq_true_1. vm_compute. reflexivity.
Qed.

Example test_fate_probs_do_not_sum_to_1 (T : matrix) :
  compute_fate_probabilities negative_advice sum_advice (λ _ _, Ok fate_prob_not_summing) T
    (Some mocked_states)
  = Raise (ValueError ("`1` value(s) do not sum to 1 (rtol=1e-3)." +:+ sum_advice)).
Proof.
  unfold compute_fate_probabilities. rewrite decide_True.
  - vm_compute. reflexivity.
  - split; [vm_compute; reflexivity|]. eapply bool_decide_eq_true_1. vm_compute. reflexivity.
Qed.

End validation.



End fate_probabilities.


(** ** Further properties of the pseudotime kernel *)

Module pseudotime_kernel_properties.

Import pseudotime_kernel.

(** A time key that [repr] quotes verbatim: printable ASCII without quotes
    and without the backslash. *)
Definition plain_char (c : ascii) : bool :=
  let n := nat_of_ascii c in
  (32 <=? n) && (n <? 127)
  && negb (Ascii.eqb c squote) && negb (Ascii.eqb c dquote) && negb (Ascii.eqb c backslash).

Fixpoint plain (s : string) : bool :=
  match s with
  | EmptyString => true
  | String c s' => plain_char c && plain s'
  end.

(** The kernel at [self] has direction [b] and the finite pseudotime [qs]. *)
Definition holds (st : store) (self : loc) (b : bool) (qs : list Qc) : Prop :=
  ∃ k, kernels st !! self = Some k
       ∧ _backward k = b
       ∧ arrays st !! _pseudotime k = Some (FloatArray (map Fin qs)).

(** A store whose kernel was built on a time key that the data container no
    longer has. *)
Definition stale_adata : AnnData :=
  {| obs := ∅;
     obsp_connectivities := Some [[Fin 0; Fin 1]; [Fin 1; Fin 0]];
     uns_n_neighbors := Some (PyInt 1) |}.

Definition stale_store : store :=
  {| adatas := <[1%positive := stale_adata]> ∅;
     arrays := arrays example_store;
     matrices := matrices example_store;
     kernels := kernels example_store |}.

(** *** The constructor *)

Lemma plain_no_quote (q : ascii) (s : string) :
  plain s = true → (q = squote ∨ q = dquote) → contains q s = false.
Proof.
  intros Hs Hq. induction s as [|c s IH]; [done|].
  simpl in *. apply andb_true_iff in Hs as [Hc Hs]. rewrite (IH Hs), orb_false_r.
  unfold plain_char in Hc. rewrite !andb_true_iff, !negb_true_iff in Hc.
  destruct Hc as [[[_ Hsq] Hdq] _].
  rewrite Ascii.eqb_sym. by destruct Hq as [-> | ->].
Qed.

Lemma repr_char_plain (c : ascii) : plain_char c = true → repr_char squote c = String c "".
Proof.
  unfold plain_char, repr_char.
  rewrite !andb_true_iff, !negb_true_iff. intros [[[[Hlo Hhi] Hsq] _] Hbs].
  rewrite Hsq, Hbs. simpl.
  apply Nat.leb_le in Hlo. apply Nat.ltb_lt in Hhi.
  rewrite !(proj2 (Nat.eqb_neq _ _)) by lia.
  by rewrite (proj2 (Nat.ltb_ge _ _)) by lia.
Qed.

Lemma repr_body_plain (s : string) : plain s = true → repr_body squote s = s.
Proof.
  induction s as [|c s IH]; [done|]. simpl. intros [Hc Hs]%andb_true_iff.
  by rewrite (repr_char_plain c Hc), (IH Hs).
Qed.

Lemma append_assoc (s t u : string) : (s +:+ t) +:+ u = s +:+ (t +:+ u).
Proof.
  induction s as [|c s IH]; [done|].
  change (String c ((s +:+ t) +:+ u) = String c (s +:+ (t +:+ u))). by f_equal.
Qed.

Lemma repr_plain (s : string) :
  plain s = true → repr s = String squote (s +:+ String squote "").
Proof.
  intros Hs. unfold repr.
  rewrite (plain_no_quote squote s Hs) by (by left). simpl.
  by rewrite (repr_body_plain s Hs).
Qed.

(** For a time key of printable ASCII characters other than the quotes and
    the backslash, the message of the [KeyError] spells the key out between
    single quotes. *)
Theorem missing_plain_key_is_quoted_verbatim
    (st : store) (adata : loc) (ad : AnnData) (backward : bool) (time_key : string) :
  adatas st !! adata = Some ad →
  is_Some (obsp_connectivities ad) →
  obs ad !! time_key = None →
  plain time_key = true →
  __init__ adata backward time_key st =
    (Raise (KeyError ("Could not find time key in `adata.obs['" +:+ time_key +:+ "']`.")), st).
Proof.
  intros Had [conn Hconn] Hkey Hplain.
  unfold __init__, bind, get_adata, lift. rewrite Had.
  unfold _read_from_adata, Kernel_read_from_adata. rewrite Hconn. simpl. rewrite Hkey.
  rewrite (repr_plain _ Hplain).
  replace (String squote (time_key +:+ String squote "") +:+ "]`.")
    with (String squote (time_key +:+ "']`.")); [reflexivity|].
  change (String squote (time_key +:+ "']`.")
          = String squote ((time_key +:+ String squote "") +:+ "]`.")).
  by rewrite append_assoc.
Qed.

Lemma any_isnan_map_Fin (qs : list Qc) : np.any_isnan (map Fin qs) = false.
Proof. apply any_isnan_false. by exists qs. Qed.

(** What [_read_from_adata] returns on a column of finite values. *)
Lemma read_from_adata_finite (ad : AnnData) (backward : bool) (time_key : string)
    (conn : knn) (qs : list Qc) :
  obsp_connectivities ad = Some conn →
  obs ad !! time_key = Some (map Fin qs) →
  (backward = true → qs ≠ []) →
  ∃ qs', _read_from_adata ad backward time_key = Ok (conn, map Fin qs')
         ∧ length qs' = length qs
         ∧ (backward = false → qs' = qs)
         ∧ (backward = true → ∃ m, is_max m qs ∧ qs' = map (λ q, m - q)%Qc qs).
Proof.
  intros Hconn Hkey Hne. unfold _read_from_adata, Kernel_read_from_adata.
  rewrite Hconn. simpl. rewrite Hkey. destruct backward.
  - destruct (max_finite qs (Hne eq_refl)) as (m & Hm & Hismax).
    exists (map (λ q, m - q)%Qc qs). rewrite Hm. simpl.
    rewrite map_fsub_Fin, any_isnan_map_Fin.
    split; [done|]. split; [by rewrite length_map|]. split; [done|]. intros _. by exists m.
  - exists qs. simpl. rewrite any_isnan_map_Fin.
    split; [done|]. split; [done|]. split; [done|]. intros [=].
Qed.

(** On a column of finite values (no NaN, no infinity) the constructor
    succeeds exactly when the kernel is forward or the column is not empty:
    [np.max] raises on a zero-size array. *)
Theorem init_succeeds_iff
    (st : store) (adata : loc) (ad : AnnData) (backward : bool) (time_key : string)
    (qs : list Qc) :
  adatas st !! adata = Some ad →
  is_Some (obsp_connectivities ad) →
  obs ad !! time_key = Some (map Fin qs) →
  (∃ pk st', __init__ adata backward time_key st = (Ok pk, st'))
  ↔ (backward = true → qs ≠ []).
Proof.
  intros Had [conn Hconn] Hkey. split.
  - intros (pk & st' & Hrun) -> ->.
    unfold __init__, bind, get_adata, lift in Hrun. rewrite Had in Hrun.
    unfold _read_from_adata, Kernel_read_from_adata in Hrun. rewrite Hconn in Hrun.
    simpl in Hrun. rewrite Hkey in Hrun. discriminate.
  - intros Hne.
    destruct (read_from_adata_finite ad backward time_key conn qs Hconn Hkey Hne)
      as (qs' & Hread & _).
    eexists _, _. by apply (init_run st adata ad backward time_key conn (map Fin qs')).
Qed.

(** A backward kernel on the two cells of [example_adata] is constructed; on
    the container without cells it is not. *)
Lemma init_succeeds_iff_witness :
  ((∃ pk st', __init__ 1%positive true "dpt_pseudotime" example_store = (Ok pk, st'))
   ↔ (true = true → [0%Qc; 1%Qc] ≠ []))
  ∧ ((∃ pk st', __init__ 1%positive true "dpt_pseudotime" empty_store = (Ok pk, st'))
     ↔ (true = true → @nil Qc ≠ [])).
Proof.
  split.
  - apply (init_succeeds_iff example_store 1%positive example_adata true "dpt_pseudotime"
             [0%Qc; 1%Qc]).
    + reflexivity.
    + eexists. reflexivity.
    + reflexivity.
  - eapply (init_succeeds_iff empty_store 1%positive _ true "dpt_pseudotime" []).
    + reflexivity.
    + eexists. reflexivity.
    + reflexivity.
Defined.

(** On a column of finite values (no NaN, no infinity), not empty when the
    kernel is backward, the construction allocates a kernel object and a
    pseudotime buffer that did not exist before and leaves the existing
    kernels and buffers as they were. The new kernel has the requested
    direction and time key; its pseudotime has one entry per cell, none of
    them NaN: the column itself for a forward kernel, the column subtracted
    entry by entry from its maximum for a backward one. *)
Theorem init_reads_pseudotime
    (st : store) (adata : loc) (ad : AnnData) (backward : bool) (time_key : string)
    (qs : list Qc) :
  adatas st !! adata = Some ad →
  is_Some (obsp_connectivities ad) →
  obs ad !! time_key = Some (map Fin qs) →
  (backward = true → qs ≠ []) →
  ∃ st' pk k pseudotime,
    __init__ adata backward time_key st = (Ok pk, st')
    ∧ (pk ∉ dom (kernels st))
    ∧ kernels st' !! pk = Some k
    ∧ _adata k = adata ∧ _backward k = backward ∧ _time_key k = time_key
    ∧ (_pseudotime k ∉ dom (arrays st))
    ∧ arrays st' !! _pseudotime k = Some (FloatArray pseudotime)
    ∧ length pseudotime = length qs
    ∧ (NaN ∉ pseudotime)
    ∧ (backward = false → pseudotime = map Fin qs)
    ∧ (backward = true →
         ∃ m, is_max m qs ∧ pseudotime = map (fsub (Fin m)) (map Fin qs))
    ∧ (∀ l x, kernels st !! l = Some x → kernels st' !! l = Some x)
    ∧ (∀ l x, arrays st !! l = Some x → arrays st' !! l = Some x).
Proof.
  intros Had [conn Hconn] Hkey Hne.
  destruct (read_from_adata_finite ad backward time_key conn qs Hconn Hkey Hne)
    as (qs' & Hread & Hlen & Hfwd & Hbwd).
  eexists _, _, _, (map Fin qs').
  split; [by apply (init_run st adata ad backward time_key conn (map Fin qs'))|].
  simpl. split; [apply is_fresh|]. split; [apply lookup_insert_eq|]. simpl.
  split_and!; try done.
  - apply is_fresh.
  - apply lookup_insert_eq.
  - by rewrite length_map.
  - intros (q & [=] & _)%list_elem_of_fmap.
  - intros Hb. by rewrite (Hfwd Hb).
  - intros Hb. destruct (Hbwd Hb) as (m & Hmax & ->). exists m.
    split; [done|]. by rewrite map_fsub_Fin.
  - intros l x Hl. rewrite lookup_insert_ne; [done|]. by eapply fresh_lookup_ne.
  - intros l x Hl. rewrite lookup_insert_ne; [done|]. by eapply fresh_lookup_ne.
Qed.

(** A backward kernel on the column [0, 1] of [example_adata]. *)
Lemma init_reads_pseudotime_witness :
  ∃ st' pk k pseudotime,
    __init__ 1%positive true "dpt_pseudotime" example_store = (Ok pk, st')
    ∧ (pk ∉ dom (kernels example_store))
    ∧ kernels st' !! pk = Some k
    ∧ _adata k = 1%positive ∧ _backward k = true ∧ _time_key k = "dpt_pseudotime"
    ∧ (_pseudotime k ∉ dom (arrays example_store))
    ∧ arrays st' !! _pseudotime k = Some (FloatArray pseudotime)
    ∧ length pseudotime = length [0%Qc; 1%Qc]
    ∧ (NaN ∉ pseudotime)
    ∧ (true = false → pseudotime = map Fin [0%Qc; 1%Qc])
    ∧ (true = true →
         ∃ m, is_max m [0%Qc; 1%Qc]
              ∧ pseudotime = map (fsub (Fin m)) (map Fin [0%Qc; 1%Qc]))
    ∧ (∀ l x, kernels example_store !! l = Some x → kernels st' !! l = Some x)
    ∧ (∀ l x, arrays example_store !! l = Some x → arrays st' !! l = Some x).
Proof.
  apply (init_reads_pseudotime example_store 1%positive example_adata true
           "dpt_pseudotime" [0%Qc; 1%Qc]).
  - reflexivity.
  - eexists. reflexivity.
  - reflexivity.
  - discriminate.
Defined.

Lemma missing_plain_key_is_quoted_verbatim_witness :
  __init__ 1%positive false "latent_time" example_store =
    (Raise (KeyError "Could not find time key in `adata.obs['latent_time']`."),
     example_store).
Proof.
  apply (missing_plain_key_is_quoted_verbatim example_store 1%positive example_adata
           false "latent_time").
  - reflexivity.
  - eexists. reflexivity.
  - reflexivity.
  - reflexivity.
Defined.

(** *** The inversion operator *)

Lemma is_min_inverted (m : Qc) (qs : list Qc) :
  is_max m qs → is_min 0%Qc (map (λ q, m - q)%Qc qs).
Proof.
  intros [Hin Hub]. split.
  - apply list_elem_of_fmap. exists m. by rewrite sub_self.
  - intros q (q' & -> & Hq')%list_elem_of_fmap.
    rewrite <- (sub_self m). apply sub_le_sub. by apply Hub.
Qed.

(** One inversion of a kernel with a finite, non-empty pseudotime. *)
Lemma invert_step (st : store) (self : loc) (b : bool) (qs : list Qc) (m : Qc) :
  holds st self b qs →
  is_max m qs →
  ∃ st', __invert__ self st = (Ok self, st')
         ∧ holds st' self (negb b) (map (λ q, m - q)%Qc qs)
         ∧ adatas st' = adatas st
         ∧ matrices st' = matrices st
         ∧ dom (kernels st') = dom (kernels st)
         ∧ (∀ l, l ≠ self → kernels st' !! l = kernels st !! l)
         ∧ (∀ l x, arrays st !! l = Some x → arrays st' !! l = Some x).
Proof.
  intros (k & Hk & Hb & Hp) Hmax.
  assert (Hne : qs ≠ []) by (destruct Hmax as [Hin _]; intros ->; by apply elem_of_nil in Hin).
  destruct (max_finite qs Hne) as (m' & Hm & Hmax').
  assert (m' = m) as -> by (by eapply is_max_unique).
  eexists. split; [by apply (invert_run st self k _ _ Hk Hp Hm)|].
  unfold inverted_store. simpl. split_and!; try done.
  - eexists. split; [apply lookup_insert_eq|]. simpl.
    split; [by rewrite Hb|]. rewrite lookup_insert_eq. by rewrite map_fsub_Fin.
  - rewrite dom_insert_L. apply elem_of_dom_2 in Hk.
    apply leibniz_equiv. apply subseteq_union_1. by apply singleton_subseteq_l.
  - intros l Hl. by rewrite lookup_insert_ne.
  - intros l x Hl. rewrite lookup_insert_ne; [done|]. by eapply fresh_lookup_ne.
Qed.

(** After [~k] the pseudotime has as many entries as before, all of them
    non-negative; its minimum is 0 and its maximum is the spread
    [max(old) - min(old)] of the old pseudotime. *)
Theorem invert_normalises_pseudotime
    (st : store) (self : loc) (b : bool) (qs : list Qc) :
  holds st self b qs →
  qs ≠ [] →
  ∃ st' qs' mx mn,
    __invert__ self st = (Ok self, st')
    ∧ holds st' self (negb b) qs'
    ∧ length qs' = length qs
    ∧ is_max mx qs ∧ is_min mn qs
    ∧ is_min 0%Qc qs'
    ∧ is_max (mx - mn)%Qc qs'
    ∧ (∀ q, q ∈ qs' → (0 <= q)%Qc).
Proof.
  intros Hholds Hne.
  destruct (max_finite qs Hne) as (mx & _ & Hmax).
  destruct (min_finite qs Hne) as (mn & _ & Hmin).
  destruct (invert_step st self b qs mx Hholds Hmax) as (st' & Hrun & Hholds' & _).
  exists st', (map (λ q, mx - q)%Qc qs), mx, mn.
  pose proof (is_min_inverted mx qs Hmax) as Hmin0.
  split_and!; try done.
  - by rewrite length_map.
  - by apply is_max_inverted.
  - apply Hmin0.
Qed.

Definition example_holds : holds example_store 1%positive false [0%Qc; 1%Qc] :=
  ex_intro _ example_kernel (conj eq_refl (conj eq_refl eq_refl)).

Lemma invert_normalises_pseudotime_witness :
  ∃ st' qs' mx mn,
    __invert__ 1%positive example_store = (Ok 1%positive, st')
    ∧ holds st' 1%positive (negb false) qs'
    ∧ length qs' = length [0%Qc; 1%Qc]
    ∧ is_max mx [0%Qc; 1%Qc] ∧ is_min mn [0%Qc; 1%Qc]
    ∧ is_min 0%Qc qs'
    ∧ is_max (mx - mn)%Qc qs'
    ∧ (∀ q, q ∈ qs' → (0 <= q)%Qc).
Proof.
  apply (invert_normalises_pseudotime example_store 1%positive false [0%Qc; 1%Qc]).
  - exact example_holds.
  - discriminate.
Defined.

(** [~k] rebinds the pseudotime to a new buffer: the buffers that existed
    before the call, the old pseudotime among them, keep their contents, and
    the data containers, the matrices and the other kernels are untouched. *)
Theorem invert_leaves_existing_buffers
    (st : store) (self : loc) (k : PseudotimeKernel) (pseudotime : list float) :
  kernels st !! self = Some k →
  arrays st !! _pseudotime k = Some (FloatArray pseudotime) →
  pseudotime ≠ [] →
  ∃ st' k',
    __invert__ self st = (Ok self, st')
    ∧ kernels st' !! self = Some k'
    ∧ (_pseudotime k' ∉ dom (arrays st))
    ∧ _adata k' = _adata k ∧ _time_key k' = _time_key k ∧ _conn k' = _conn k
    ∧ arrays st' !! _pseudotime k = Some (FloatArray pseudotime)
    ∧ (∀ l x, arrays st !! l = Some x → arrays st' !! l = Some x)
    ∧ (∀ l, l ≠ self → kernels st' !! l = kernels st !! l)
    ∧ adatas st' = adatas st
    ∧ matrices st' = matrices st.
Proof.
  intros Hk Hp Hne. destruct (max_nonempty _ Hne) as [m Hm].
  assert (Hframe : ∀ l x, arrays st !! l = Some x
            → arrays (inverted_store st self k (map (fsub m) pseudotime)) !! l = Some x).
  { intros l x Hl. simpl. rewrite lookup_insert_ne; [done|]. by eapply fresh_lookup_ne. }
  eexists _, _. split; [by apply (invert_run st self k pseudotime m)|].
  split; [apply lookup_insert_eq|]. simpl. split_and!; try done.
  - apply is_fresh.
  - by apply Hframe.
  - intros l Hl. by rewrite lookup_insert_ne.
Qed.

Lemma invert_leaves_existing_buffers_witness :
  ∃ st' k',
    __invert__ 1%positive example_store = (Ok 1%positive, st')
    ∧ kernels st' !! 1%positive = Some k'
    ∧ (_pseudotime k' ∉ dom (arrays example_store))
    ∧ _adata k' = _adata example_kernel ∧ _time_key k' = _time_key example_kernel
    ∧ _conn k' = _conn example_kernel
    ∧ arrays st' !! _pseudotime example_kernel = Some (FloatArray [Fin 0; Fin 1])
    ∧ (∀ l x, arrays example_store !! l = Some x → arrays st' !! l = Some x)
    ∧ (∀ l, l ≠ 1%positive → kernels st' !! l = kernels example_store !! l)
    ∧ adatas st' = adatas example_store
    ∧ matrices st' = matrices example_store.
Proof.
  apply (invert_leaves_existing_buffers example_store 1%positive example_kernel
           [Fin 0; Fin 1]).
  - reflexivity.
  - reflexivity.
  - discriminate.
Defined.

Lemma invert_empty_run (st : store) (self : loc) (k : PseudotimeKernel) :
  kernels st !! self = Some k →
  arrays st !! _pseudotime k = Some (FloatArray []) →
  __invert__ self st =
    (Raise (ValueError "zero-size array to reduction operation maximum which has no identity"),
     {| adatas := adatas st; arrays := arrays st; matrices := matrices st;
        kernels := <[self := with_backward (negb (_backward k)) k]> (kernels st) |}).
Proof.
  intros Hk Hp.
  unfold __invert__, Kernel___invert__, bind, get_kernel, get_float_array, bind,
    get_array, set_kernel, lift. simpl.
  rewrite Hk. simpl. rewrite lookup_insert_eq. simpl. by rewrite Hp.
Qed.

(** On a kernel over no cells [~k] raises the [ValueError] of [np.max], after
    the base class has toggled the direction: the kernel is left with the new
    direction and its old, empty pseudotime. *)
Theorem invert_without_cells_raises_after_toggling
    (st : store) (self : loc) (k : PseudotimeKernel) :
  kernels st !! self = Some k →
  arrays st !! _pseudotime k = Some (FloatArray []) →
  ∃ st' msg,
    __invert__ self st = (Raise (ValueError msg), st')
    ∧ kernels st' !! self = Some (with_backward (negb (_backward k)) k)
    ∧ arrays st' = arrays st.
Proof.
  intros Hk Hp. eexists _, _. split; [by apply invert_empty_run|].
  simpl. split; [apply lookup_insert_eq | done].
Qed.

Lemma invert_without_cells_raises_after_toggling_witness :
  ∃ st' msg,
    __invert__ 1%positive empty_store = (Raise (ValueError msg), st')
    ∧ kernels st' !! 1%positive
      = Some (with_backward (negb (_backward empty_kernel)) empty_kernel)
    ∧ arrays st' = arrays empty_store.
Proof.
  apply (invert_without_cells_raises_after_toggling empty_store 1%positive empty_kernel).
  - reflexivity.
  - reflexivity.
Defined.

(** *** Construction and inversion *)

(** On a column of finite values (no NaN, no infinity) over at least one
    cell, constructing a backward kernel and inverting a forward kernel give
    the same direction and the same pseudotime. On a container without cells
    both raise the [ValueError] of [np.max]. *)
Theorem backward_construction_is_inverted_forward
    (st : store) (adata : loc) (ad : AnnData) (time_key : string) (qs : list Qc) :
  adatas st !! adata = Some ad →
  is_Some (obsp_connectivities ad) →
  obs ad !! time_key = Some (map Fin qs) →
  ∃ pf stf rf stf' rb stb,
    __init__ adata false time_key st = (Ok pf, stf)
    ∧ __invert__ pf stf = (rf, stf')
    ∧ __init__ adata true time_key st = (rb, stb)
    ∧ (qs ≠ [] →
         ∃ pb kf kb pseudotime,
           rf = Ok pf ∧ rb = Ok pb
           ∧ kernels stf' !! pf = Some kf ∧ kernels stb !! pb = Some kb
           ∧ _backward kf = true ∧ _backward kb = true
           ∧ arrays stf' !! _pseudotime kf = Some (FloatArray pseudotime)
           ∧ arrays stb !! _pseudotime kb = Some (FloatArray pseudotime)
           ∧ length pseudotime = length qs)
    ∧ (qs = [] → ∃ msg, rf = Raise (ValueError msg) ∧ rb = Raise (ValueError msg)).
Proof.
  intros Had [conn Hconn] Hkey.
  destruct (read_from_adata_finite ad false time_key conn qs Hconn Hkey)
    as (qs0 & Hread & _ & Hfwd & _); [done|]. rewrite (Hfwd eq_refl) in Hread.
  pose proof (init_run st adata ad false time_key conn _ Had Hread) as Hinit.
  set (pf := fresh (dom (kernels st))) in *.
  set (p := fresh (dom (arrays st))) in *.
  match type of Hinit with _ = (_, ?s) => set (stf := s) in * end.
  assert (Hholds : holds stf pf false qs).
  { eexists. split; [apply lookup_insert_eq|]. simpl. split; [done|]. apply lookup_insert_eq. }
  destruct qs as [|q qs'].
  - destruct Hholds as (k & Hk & _ & Hp).
    exists pf, stf. eexists _, _, _, st. split; [exact Hinit|].
    split; [by apply (invert_empty_run stf pf k)|]. split.
    + unfold __init__, bind, get_adata, lift. rewrite Had.
      unfold _read_from_adata, Kernel_read_from_adata. rewrite Hconn. simpl.
      rewrite Hkey. reflexivity.
    + split; [done|]. intros _. by eexists.
  - assert (Hne : q :: qs' ≠ []) by done.
    destruct (max_finite _ Hne) as (m & _ & Hmax).
    destruct (invert_step stf pf false _ m Hholds Hmax)
      as (stf' & Hrun & (kf & Hkf & Hbf & Hpf) & _).
    destruct (read_from_adata_finite ad true time_key conn _ Hconn Hkey)
      as (qsb & Hreadb & _ & _ & Hbwd); [done|].
    destruct (Hbwd eq_refl) as (m' & Hmax' & ->).
    assert (m' = m) as -> by (by eapply is_max_unique).
    pose proof (init_run st adata ad true time_key conn _ Had Hreadb) as Hinitb.
    exists pf, stf. eexists _, stf', _, _. split; [exact Hinit|].
    split; [exact Hrun|]. split; [exact Hinitb|]. split; [|done]. intros _.
    eexists _, kf, _, _. split; [done|]. split; [done|]. split; [exact Hkf|].
    split; [apply lookup_insert_eq|]. split; [exact Hbf|]. split; [done|].
    split; [exact Hpf|]. simpl. split; [apply lookup_insert_eq|].
    by rewrite !length_map.
Qed.

(** The column [1, 3, 2] of [sample_adata]: both ways give a backward kernel
    over three cells. *)
Lemma backward_construction_is_inverted_forward_witness :
  ∃ pf stf rf stf' rb stb,
    __init__ 1%positive false "dpt_pseudotime" sample_store = (Ok pf, stf)
    ∧ __invert__ pf stf = (rf, stf')
    ∧ __init__ 1%positive true "dpt_pseudotime" sample_store = (rb, stb)
    ∧ ([1%Qc; Q2Qc 3; Q2Qc 2] ≠ [] →
         ∃ pb kf kb pseudotime,
           rf = Ok pf ∧ rb = Ok pb
           ∧ kernels stf' !! pf = Some kf ∧ kernels stb !! pb = Some kb
           ∧ _backward kf = true ∧ _backward kb = true
           ∧ arrays stf' !! _pseudotime kf = Some (FloatArray pseudotime)
           ∧ arrays stb !! _pseudotime kb = Some (FloatArray pseudotime)
           ∧ length pseudotime = length [1%Qc; Q2Qc 3; Q2Qc 2])
    ∧ ([1%Qc; Q2Qc 3; Q2Qc 2] = [] →
         ∃ msg, rf = Raise (ValueError msg) ∧ rb = Raise (ValueError msg)).
Proof.
  apply (backward_construction_is_inverted_forward sample_store 1%positive sample_adata
           "dpt_pseudotime" [1%Qc; Q2Qc 3; Q2Qc 2]).
  - reflexivity.
  - eexists. reflexivity.
  - reflexivity.
Defined.

(** *** [copy] *)

(** The transition matrix of the kernel is absent or refers to a live
    matrix object. *)
Definition matrix_ok (st : store) (k : PseudotimeKernel) : Prop :=
  _transition_matrix k = None
  ∨ ∃ t m, _transition_matrix k = Some t ∧ matrices st !! t = Some m.

Lemma copy_run (st : store) (self : loc) (k : PseudotimeKernel) (ad : AnnData)
    (conn : knn) (pseudotime0 : list float) (a : ndarray) :
  kernels st !! self = Some k →
  adatas st !! _adata k = Some ad →
  _read_from_adata ad (_backward k) (_time_key k) = Ok (conn, pseudotime0) →
  arrays st !! _pseudotime k = Some a →
  matrix_ok st k →
  ∃ st' k',
    copy self st = (Ok (fresh (dom (kernels st))), st')
    ∧ kernels st' = <[fresh (dom (kernels st)) := k']> (kernels st)
    ∧ adatas st' = adatas st
    ∧ arrays st' = <[_pseudotime k' := a]>
                     (<[fresh (dom (arrays st)) := FloatArray pseudotime0]> (arrays st))
    ∧ (_pseudotime k' ∉ dom (arrays st))
    ∧ _adata k' = _adata k ∧ _backward k' = _backward k ∧ _conn k' = conn
    ∧ _time_key k' = _time_key k ∧ _params k' = _params k ∧ _cond_num k' = _cond_num k
    ∧ (is_Some (_transition_matrix k') ↔ is_Some (_transition_matrix k))
    ∧ (_transition_matrix k = None → matrices st' = matrices st).
Proof.
  intros Hk Had Hread Hp Hm.
  pose proof (init_run st _ _ _ _ _ _ Had Hread) as Hinit.
  set (p1 := fresh (dom (arrays st))) in *.
  set (pk := fresh (dom (kernels st))) in *.
  assert (Hp1 : p1 ≠ _pseudotime k) by (by eapply fresh_lookup_ne).
  set (arrays1 := <[p1 := FloatArray pseudotime0]> (arrays st)).
  assert (Hp2 : fresh (dom arrays1) ∉ dom (arrays st)).
  { intros Hin. apply (is_fresh (dom arrays1)). unfold arrays1 at 2.
    rewrite dom_insert_L. by apply elem_of_union_r. }
  destruct Hm as [Hnone | (t & m & Ht & Hm)].
  - eexists _, _. split.
    + unfold copy, bind, get_kernel. rewrite Hk, Hinit. simpl.
      unfold copy_ndarray, bind, get_array, alloc_array. simpl.
      rewrite lookup_insert_ne by exact Hp1. rewrite Hp. simpl. rewrite Hnone.
      unfold copy_csr_matrix, ret. simpl.
      unfold get_kernel, set_kernel. simpl. rewrite lookup_insert_eq. simpl.
      rewrite insert_insert_eq. reflexivity.
    + simpl. split_and!; try done. rewrite Hnone. split; intros []; discriminate.
  - eexists _, _. split.
    + unfold copy, bind, get_kernel. rewrite Hk, Hinit. simpl.
      unfold copy_ndarray, bind, get_array, alloc_array. simpl.
      rewrite lookup_insert_ne by exact Hp1. rewrite Hp. simpl. rewrite Ht.
      unfold copy_csr_matrix, bind, get_matrix, alloc_matrix, ret. simpl. rewrite Hm. simpl.
      unfold get_kernel, set_kernel. simpl. rewrite lookup_insert_eq. simpl.
      rewrite insert_insert_eq. reflexivity.
    + simpl. split_and!; try done; rewrite Ht;
        first [by intros [=] | split; intros _; by eexists].
Qed.

(** Inverting a copy leaves the original alone: the kernel object of the
    original, its direction and the contents of its pseudotime are as before
    the copy was made, while the copy has the opposite direction. *)
Theorem inverting_a_copy_leaves_the_original
    (st : store) (self : loc) (k : PseudotimeKernel) (ad : AnnData) (conn : knn)
    (pseudotime0 pseudotime : list float) :
  kernels st !! self = Some k →
  adatas st !! _adata k = Some ad →
  _read_from_adata ad (_backward k) (_time_key k) = Ok (conn, pseudotime0) →
  arrays st !! _pseudotime k = Some (FloatArray pseudotime) →
  pseudotime ≠ [] →
  matrix_ok st k →
  ∃ pk st1 st2 k2,
    copy self st = (Ok pk, st1)
    ∧ __invert__ pk st1 = (Ok pk, st2)
    ∧ pk ≠ self
    ∧ kernels st2 !! self = Some k
    ∧ arrays st2 !! _pseudotime k = Some (FloatArray pseudotime)
    ∧ kernels st2 !! pk = Some k2
    ∧ _backward k2 = negb (_backward k).
Proof.
  intros Hk Had Hread Hp Hne Hm.
  destruct (copy_run st self k ad conn pseudotime0 _ Hk Had Hread Hp Hm)
    as (st1 & k1 & Hcopy & Hkernels & _ & Harrays & Hfresh & _ & Hb & _).
  set (pk := fresh (dom (kernels st))) in *.
  assert (Hpk : pk ≠ self) by (by eapply fresh_lookup_ne).
  assert (Hk1 : kernels st1 !! pk = Some k1) by (rewrite Hkernels; apply lookup_insert_eq).
  assert (Hp1 : arrays st1 !! _pseudotime k1 = Some (FloatArray pseudotime))
    by (rewrite Harrays; apply lookup_insert_eq).
  destruct (max_nonempty _ Hne) as [m Hmax].
  pose proof (invert_run st1 pk k1 pseudotime m Hk1 Hp1 Hmax) as Hinv.
  exists pk, st1. eexists _, _. split; [exact Hcopy|]. split; [exact Hinv|].
  split; [exact Hpk|]. simpl. split_and!.
  - rewrite lookup_insert_ne by done. rewrite Hkernels. by rewrite lookup_insert_ne.
  - rewrite lookup_insert_ne.
    + rewrite Harrays. rewrite !lookup_insert_ne; [done| |].
      * by eapply fresh_lookup_ne.
      * intros Heq. apply Hfresh. rewrite Heq. by eapply elem_of_dom_2.
    + eapply fresh_lookup_ne. rewrite Harrays. rewrite !lookup_insert_ne; [done| |].
      * by eapply fresh_lookup_ne.
      * intros Heq. apply Hfresh. rewrite Heq. by eapply elem_of_dom_2.
  - apply lookup_insert_eq.
  - simpl. by rewrite Hb.
Qed.

Lemma inverting_a_copy_leaves_the_original_witness :
  ∃ pk st1 st2 k2,
    copy 1%positive example_store = (Ok pk, st1)
    ∧ __invert__ pk st1 = (Ok pk, st2)
    ∧ pk ≠ 1%positive
    ∧ kernels st2 !! 1%positive = Some example_kernel
    ∧ arrays st2 !! _pseudotime example_kernel = Some (FloatArray [Fin 0; Fin 1])
    ∧ kernels st2 !! pk = Some k2
    ∧ _backward k2 = negb (_backward example_kernel).
Proof.
  apply (inverting_a_copy_leaves_the_original example_store 1%positive example_kernel
           example_adata [[Fin 0; Fin 1]; [Fin 1; Fin 0]] [Fin 0; Fin 1] [Fin 0; Fin 1]).
  - reflexivity.
  - reflexivity.
  - reflexivity.
  - reflexivity.
  - discriminate.
  - right. eexists _, _. split; reflexivity.
Defined.

(** [copy] runs the constructor again on the shared data container: when the
    time key is no longer a column of [adata.obs], copying an intact kernel
    raises the [KeyError] of the constructor and allocates nothing. *)
Theorem copy_fails_when_time_key_is_gone
    (st : store) (self : loc) (k : PseudotimeKernel) (ad : AnnData) :
  kernels st !! self = Some k →
  adatas st !! _adata k = Some ad →
  is_Some (obsp_connectivities ad) →
  obs ad !! _time_key k = None →
  copy self st =
    (Raise (KeyError ("Could not find time key in `adata.obs["
                      +:+ repr (_time_key k) +:+ "]`.")), st).
Proof.
  intros Hk Had [conn Hconn] Hkey.
  unfold copy, bind, get_kernel. rewrite Hk.
  unfold __init__, bind, get_adata, lift. rewrite Had.
  unfold _read_from_adata, Kernel_read_from_adata. rewrite Hconn. simpl. by rewrite Hkey.
Qed.

Lemma copy_fails_when_time_key_is_gone_witness :
  copy 1%positive stale_store =
    (Raise (KeyError "Could not find time key in `adata.obs['dpt_pseudotime']`."),
     stale_store).
Proof.
  apply (copy_fails_when_time_key_is_gone stale_store 1%positive example_kernel
           stale_adata).
  - reflexivity.
  - reflexivity.
  - eexists. reflexivity.
  - reflexivity.
Defined.

(** *** [compute_transition_matrix] *)

Section compute_transition_matrix_further.

Variable SoftThresholdScheme_bias_knn : bias_fn.
Variable HardThresholdScheme_bias_knn : bias_fn.
Variable row_normalize : knn → res (list float * list Z * list Z).

#[local] Abbreviation compute := (compute_transition_matrix SoftThresholdScheme_bias_knn
                                   HardThresholdScheme_bias_knn row_normalize).
#[local] Abbreviation select := (select_scheme SoftThresholdScheme_bias_knn
                                  HardThresholdScheme_bias_knn).
#[local] Abbreviation is_cached := (cached SoftThresholdScheme_bias_knn
                                     HardThresholdScheme_bias_knn).

(** What a call that returned has done. *)
Lemma compute_ok_inv (st st1 : store) (self r : loc) (threshold_scheme : threshold_scheme_arg)
    (frac_to_keep b nu : float) (kwargs : gmap string pyval) :
  compute self threshold_scheme frac_to_keep b nu kwargs st = (Ok r, st1) →
  ∃ k k1 ad n ps kw,
    r = self
    ∧ kernels st !! self = Some k
    ∧ adatas st !! _adata k = Some ad
    ∧ n_neighbors_of ad (_conn k) = Ok n
    ∧ select threshold_scheme frac_to_keep b nu n kwargs = Ok (ps, kw)
    ∧ kernels st1 !! self = Some k1
    ∧ _params k1 = cache_key ps.1 kw
    ∧ _adata k1 = _adata k ∧ _backward k1 = _backward k ∧ _conn k1 = _conn k
    ∧ _time_key k1 = _time_key k ∧ _pseudotime k1 = _pseudotime k
    ∧ adatas st1 = adatas st
    ∧ (∀ l, l ≠ self → kernels st1 !! l = kernels st !! l)
    ∧ (∀ l x, arrays st !! l = Some x → arrays st1 !! l = Some x)
    ∧ (∀ l x, matrices st !! l = Some x → matrices st1 !! l = Some x)
    ∧ ((_params k = cache_key ps.1 kw ∧ is_Some (_transition_matrix k) ∧ st1 = st)
       ∨ (¬ (_params k = cache_key ps.1 kw ∧ is_Some (_transition_matrix k))
          ∧ ∃ t pseudotime biased,
              _transition_matrix k1 = Some t
              ∧ (t ∉ dom (matrices st))
              ∧ arrays st !! _pseudotime k = Some (FloatArray pseudotime)
              ∧ ps.2 (_conn k) pseudotime kw = Ok biased)).
Proof.
  unfold compute_transition_matrix, bind, get_kernel, get_adata, lift.
  destruct (kernels st !! self) as [k|] eqn:Hk; [|discriminate].
  destruct (adatas st !! _adata k) as [ad|] eqn:Had; [|discriminate].
  destruct (n_neighbors_of ad (_conn k)) as [n|] eqn:Hn; [|discriminate].
  destruct (select _ _ _ _ n kwargs) as [[ps kw]|] eqn:Hsel; [|discriminate].
  unfold Kernel__reuse_cache, bind, get_kernel. rewrite Hk.
  unfold set_kernel, ret. simpl.
  destruct (bool_decide (_params k = cache_key ps.1 kw)
            && bool_decide (is_Some (_transition_matrix k))) eqn:Hhit.
  - intros [= <- <-].
    apply andb_true_iff in Hhit as [Hpar%bool_decide_eq_true Htm%bool_decide_eq_true].
    exists k, k, ad, n, ps, kw.
    assert (Hst : {| adatas := adatas st; arrays := arrays st; matrices := matrices st;
                     kernels := <[self := with_params (cache_key ps.1 kw) k]> (kernels st) |}
                  = st).
    { rewrite <- Hpar, with_params_id, (insert_id _ _ _ Hk). by destruct st. }
    rewrite Hst. split_and!; try done. by left.
  - unfold get_float_array, bind, get_array. simpl.
    destruct (arrays st !! _pseudotime k) as [[pseudotime|]|] eqn:Hp; try discriminate.
    unfold ret. destruct (ps.2 (_conn k) pseudotime kw) as [biased|] eqn:Hbias; [|discriminate].
    unfold Kernel__compute_transition_matrix, bind, lift.
    destruct (row_normalize biased) as [[[d i] p]|]; [|discriminate].
    unfold alloc_array, alloc_matrix, get_kernel, set_kernel. simpl.
    rewrite lookup_insert_eq. intros [= <- <-].
    eexists k, _, ad, n, ps, kw. simpl. rewrite lookup_insert_eq.
    split_and!; try done.
    + intros l Hl. by rewrite !lookup_insert_ne.
    + intros l x Hl.
      set (a1 := <[fresh (dom (arrays st)) := FloatArray d]> (arrays st)).
      set (a2 := <[fresh (dom a1) := IntArray i]> a1).
      assert (H1 : a1 !! l = Some x).
      { unfold a1. rewrite lookup_insert_ne; [done|]. by eapply fresh_lookup_ne. }
      assert (H2 : a2 !! l = Some x).
      { unfold a2. rewrite lookup_insert_ne; [done|]. by eapply fresh_lookup_ne. }
      rewrite lookup_insert_ne; [done|]. by eapply fresh_lookup_ne.
    + intros l x Hl. rewrite lookup_insert_ne; [done|]. by eapply fresh_lookup_ne.
    + right. split.
      * intros [Hpar Htm]. apply andb_false_iff in Hhit as [H|H];
          apply bool_decide_eq_false in H; tauto.
      * eexists _, pseudotime, biased. split_and!; try done. apply is_fresh.
Qed.

(** A [threshold_scheme] that is neither a string, a scheme nor a callable is
    rejected with the [TypeError] that names its type, and a string other than
    ['soft'] and ['hard'] with a [ValueError]; both before the cache is
    consulted, so that the kernel keeps its parameters and its matrix. *)
Theorem invalid_threshold_scheme_is_rejected
    (st : store) (self : loc) (k : PseudotimeKernel) (ad : AnnData) (n : pyval)
    (frac_to_keep b nu : float) (kwargs : gmap string pyval) :
  kernels st !! self = Some k →
  adatas st !! _adata k = Some ad →
  n_neighbors_of ad (_conn k) = Ok n →
  (∀ printed type_name,
     compute self (ArgOther printed type_name) frac_to_keep b nu kwargs st
     = (Raise (TypeError ("Expected `threshold_scheme` to be either a `str` or a `callable`, found `"
                          +:+ type_name +:+ "`.")), st))
  ∧ (∀ s, s ≠ "soft" → s ≠ "hard" →
       ∃ msg, compute self (ArgStr s) frac_to_keep b nu kwargs st = (Raise (ValueError msg), st)).
Proof.
  intros Hk Had Hn. split.
  - intros printed type_name.
    unfold compute_transition_matrix, bind, get_kernel, get_adata, lift.
    by rewrite Hk, Had, Hn.
  - intros s Hsoft Hhard. eexists.
    unfold compute_transition_matrix, bind, get_kernel, get_adata, lift.
    rewrite Hk, Had, Hn. unfold select_scheme, ThresholdScheme_of_str.
    rewrite !decide_False by done. reflexivity.
Qed.

(** Without [n_neighbors] in the data container the neighbor count is
    estimated from the connectivities before the scheme is looked at: on a
    kernel over no cells every call raises the [ValueError] of [np.min],
    whatever the scheme, and changes nothing. *)
Theorem compute_without_cells_and_n_neighbors_raises
    (st : store) (self : loc) (k : PseudotimeKernel) (ad : AnnData)
    (threshold_scheme : threshold_scheme_arg) (frac_to_keep b nu : float)
    (kwargs : gmap string pyval) :
  kernels st !! self = Some k →
  adatas st !! _adata k = Some ad →
  uns_n_neighbors ad = None ∨ uns_n_neighbors ad = Some PyNone →
  _conn k = [] →
  compute self threshold_scheme frac_to_keep b nu kwargs st
  = (Raise (ValueError "zero-size array to reduction operation minimum which has no identity"),
     st).
Proof.
  intros Hk Had Hn Hconn.
  unfold compute_transition_matrix, bind, get_kernel, get_adata, lift.
  rewrite Hk, Had. unfold n_neighbors_of. rewrite Hconn.
  by destruct Hn as [-> | ->].
Qed.

Lemma cached_transfer (st : store) (self : loc) (ts ts' : threshold_scheme_arg)
    (f b nu f' b' nu' : float) (kwargs kwargs' : gmap string pyval) :
  (∀ n ps kw, select ts f b nu n kwargs = Ok (ps, kw) →
     ∃ ps', select ts' f' b' nu' n kwargs' = Ok (ps', kw)
            ∧ cache_key ps'.1 kw = cache_key ps.1 kw) →
  is_cached st self ts f b nu kwargs →
  is_cached st self ts' f' b' nu' kwargs'.
Proof.
  intros Hsel (k & ad & n & ps & kw & Hk & Had & Hn & Hs & Hpar & Htm).
  destruct (Hsel n ps kw Hs) as (ps' & Hs' & Hkey).
  exists k, ad, n, ps', kw. split_and!; try done. by rewrite Hkey.
Qed.

(** The cache key of the hard scheme holds [frac_to_keep] and [n_neighs]
    but neither [b] nor [nu], and that of the soft scheme holds [b] and [nu]
    but not [frac_to_keep]: after a call that returned, a call that differs
    only in the arguments the scheme does not use is a cache hit. *)
Theorem unused_scheme_arguments_do_not_invalidate
    (st st1 : store) (self r : loc) (frac_to_keep b nu : float)
    (kwargs : gmap string pyval) :
  (compute self (ArgStr "hard") frac_to_keep b nu kwargs st = (Ok r, st1) →
     ∀ b' nu', compute self (ArgStr "hard") frac_to_keep b' nu' kwargs st1 = (Ok self, st1))
  ∧ (compute self (ArgStr "soft") frac_to_keep b nu kwargs st = (Ok r, st1) →
     ∀ frac_to_keep',
       compute self (ArgStr "soft") frac_to_keep' b nu kwargs st1 = (Ok self, st1)).
Proof.
  split.
  - intros Hrun b' nu'. apply compute_caches in Hrun as [_ Hc]. apply compute_hit.
    revert Hc. apply cached_transfer. intros n ps kw Hs. exists ps. split; [|done].
    exact Hs.
  - intros Hrun f'. apply compute_caches in Hrun as [_ Hc]. apply compute_hit.
    revert Hc. apply cached_transfer. intros n ps kw Hs. exists ps. split; [|done].
    exact Hs.
Qed.

Lemma cache_key_lookup_kwargs (printed : string) (kw : gmap string pyval) (i : string)
    (v : pyval) :
  kw !! i = Some v → cache_key printed kw !! i = Some v.
Proof. intros H. unfold cache_key. by apply lookup_union_Some_l. Qed.

(** With the hard scheme, a call with another [frac_to_keep] than the one
    of the previous call is not served from the cache: when it returns, the
    kernel holds a matrix object that did not exist before and its stored
    parameters record the new [frac_to_keep]. *)
Theorem changed_frac_to_keep_recomputes
    (st0 st st1 : store) (self r0 r : loc) (frac_to_keep frac_to_keep' b nu : float)
    (kwargs : gmap string pyval) :
  compute self (ArgStr "hard") frac_to_keep b nu kwargs st0 = (Ok r0, st) →
  frac_to_keep' ≠ frac_to_keep →
  compute self (ArgStr "hard") frac_to_keep' b nu kwargs st = (Ok r, st1) →
  ∃ k1 t,
    kernels st1 !! self = Some k1
    ∧ _transition_matrix k1 = Some t
    ∧ (t ∉ dom (matrices st))
    ∧ _params k1 !! "frac_to_keep" = Some (PyFloat frac_to_keep').
Proof.
  intros Hfirst Hne Hsecond.
  apply compute_caches in Hfirst
    as [_ (k & ad & n & ps & kw & Hk & Had & Hn & Hs & Hpar & Htm)].
  apply compute_ok_inv in Hsecond
    as (k' & k1 & ad' & n' & ps' & kw' & _ & Hk' & Had' & Hn' & Hs' & Hk1 & Hpar1 & Hrest).
  rewrite Hk in Hk'. injection Hk' as <-.
  injection Hs as <- <-. injection Hs' as <- <-.
  assert (Hnew : _params k1 !! "frac_to_keep" = Some (PyFloat frac_to_keep')).
  { rewrite Hpar1. apply cache_key_lookup_kwargs.
    rewrite lookup_insert_ne by done. apply lookup_insert_eq. }
  assert (Hold : _params k !! "frac_to_keep" = Some (PyFloat frac_to_keep)).
  { rewrite Hpar. apply cache_key_lookup_kwargs.
    rewrite lookup_insert_ne by done. apply lookup_insert_eq. }
  destruct Hrest as (_ & _ & _ & _ & _ & _ & _ & _ & _ & [Hhit | Hmiss]).
  - destruct Hhit as (Hpar' & _ & _). exfalso. apply Hne.
    assert (Hsame : _params k !! "frac_to_keep" = Some (PyFloat frac_to_keep')).
    { rewrite Hpar'. apply cache_key_lookup_kwargs.
      rewrite lookup_insert_ne by done. apply lookup_insert_eq. }
    rewrite Hold in Hsame. by injection Hsame.
  - destruct Hmiss as (_ & t & _ & _ & Ht & Hfresh & _). by exists k1, t.
Qed.

(** The keyword arguments are spliced into the cache key after its fixed
    entries: a keyword argument named [scheme] replaces the identity of the
    scheme. After a call with one callable has returned, a call with any
    other callable and the same keyword arguments is a cache hit, and the
    other callable is not run. *)
Theorem scheme_keyword_hides_the_callable
    (st st1 : store) (self r : loc) (printed : string) (callback : bias_fn)
    (frac_to_keep b nu : float) (kwargs : gmap string pyval) :
  is_Some (kwargs !! "scheme") →
  compute self (ArgCallable printed callback) frac_to_keep b nu kwargs st = (Ok r, st1) →
  ∀ printed' callback',
    compute self (ArgCallable printed' callback') frac_to_keep b nu kwargs st1
    = (Ok self, st1).
Proof.
  intros [v Hv] Hrun printed' callback'.
  apply compute_caches in Hrun as [_ Hc]. apply compute_hit.
  revert Hc. apply cached_transfer. intros n ps kw [= <- <-].
  eexists. split; [reflexivity|]. simpl.
  apply map_eq. intros i. unfold cache_key.
  destruct (kwargs !! i) as [w|] eqn:Hi.
  - by rewrite !(lookup_union_Some_l _ _ _ _ Hi).
  - assert ("scheme" ≠ i) by (intros <-; congruence).
    rewrite !lookup_union_r by done. by rewrite !(lookup_insert_ne _ "scheme" i).
Qed.

(** A call that returns leaves the direction, the time key, the data
    container and the pseudotime of the kernel as they were, and touches no
    other kernel. *)
Theorem compute_keeps_direction_and_pseudotime
    (st st1 : store) (self r : loc) (threshold_scheme : threshold_scheme_arg)
    (frac_to_keep b nu : float) (kwargs : gmap string pyval) :
  compute self threshold_scheme frac_to_keep b nu kwargs st = (Ok r, st1) →
  ∃ k k1,
    kernels st !! self = Some k
    ∧ kernels st1 !! self = Some k1
    ∧ _backward k1 = _backward k
    ∧ _time_key k1 = _time_key k
    ∧ _adata k1 = _adata k
    ∧ _pseudotime k1 = _pseudotime k
    ∧ arrays st1 !! _pseudotime k1 = arrays st !! _pseudotime k
    ∧ adatas st1 = adatas st
    ∧ (∀ l, l ≠ self → kernels st1 !! l = kernels st !! l).
Proof.
  intros Hrun.
  apply compute_ok_inv in Hrun
    as (k & k1 & ad & n & ps & kw & _ & Hk & _ & _ & _ & Hk1 & _ & Ha & Hb & _ & Ht & Hp
        & Had & Hother & Harr & _ & Hcase).
  exists k, k1. split_and!; try done. rewrite Hp.
  destruct Hcase as [(_ & _ & ->) | (_ & t & pseudotime & biased & _ & _ & Hpt & _)]; [done|].
  rewrite Hpt. by apply Harr.
Qed.

(** [copy] carries the stored parameters and the transition matrix over:
    when the data container still holds the connectivities the kernel was
    built on, the copy of a kernel whose transition matrix was computed
    serves the same call from its cache. *)
Theorem copy_of_a_cached_kernel_is_cached
    (st st1 : store) (self r : loc) (threshold_scheme : threshold_scheme_arg)
    (frac_to_keep b nu : float) (kwargs : gmap string pyval)
    (k1 : PseudotimeKernel) (ad : AnnData) (pseudotime0 : list float) (a : ndarray) :
  compute self threshold_scheme frac_to_keep b nu kwargs st = (Ok r, st1) →
  kernels st1 !! self = Some k1 →
  adatas st1 !! _adata k1 = Some ad →
  _read_from_adata ad (_backward k1) (_time_key k1) = Ok (_conn k1, pseudotime0) →
  arrays st1 !! _pseudotime k1 = Some a →
  matrix_ok st1 k1 →
  ∃ pk st2,
    copy self st1 = (Ok pk, st2)
    ∧ pk ≠ self
    ∧ compute pk threshold_scheme frac_to_keep b nu kwargs st2 = (Ok pk, st2).
Proof.
  intros Hrun Hk1 Had Hread Hp Hm.
  apply compute_caches in Hrun
    as [_ (k & ad' & n & ps & kw & Hk & Had' & Hn & Hs & Hpar & Htm)].
  rewrite Hk1 in Hk. injection Hk as <-. rewrite Had in Had'. injection Had' as <-.
  destruct (copy_run st1 self k1 ad _ pseudotime0 a Hk1 Had Hread Hp Hm)
    as (st2 & k' & Hcopy & Hkernels & Hadatas & _ & _ & Ha & _ & Hconn & _ & Hparams & _
        & Htm' & _).
  eexists _, st2. split; [exact Hcopy|]. split; [by eapply fresh_lookup_ne|].
  apply compute_hit. exists k', ad, n, ps, kw. split_and!.
  - rewrite Hkernels. apply lookup_insert_eq.
  - by rewrite Hadatas, Ha.
  - by rewrite Hconn.
  - exact Hs.
  - by rewrite Hparams.
  - by apply Htm'.
Qed.

End compute_transition_matrix_further.

(** The first call on [example_store] with the hard scheme, and the store it
    leaves. *)
Definition example_compute (threshold_scheme : threshold_scheme_arg) (frac_to_keep : Q)
    (kwargs : gmap string pyval) : M loc :=
  compute_transition_matrix example_bias_knn example_bias_knn example_row_normalize
    1%positive threshold_scheme (Fin (Q2Qc frac_to_keep)) (Fin (Q2Qc 10)) (Fin (Q2Qc 0.5))
    kwargs.

Definition computed_store : store := (example_compute (ArgStr "hard") 0.3 ∅ example_store).2.

Lemma invalid_threshold_scheme_is_rejected_witness :
  (∀ printed type_name,
     example_compute (ArgOther printed type_name) 0.3 ∅ example_store
     = (Raise (TypeError ("Expected `threshold_scheme` to be either a `str` or a `callable`, found `"
                          +:+ type_name +:+ "`.")), example_store))
  ∧ (∀ s, s ≠ "soft" → s ≠ "hard" →
       ∃ msg, example_compute (ArgStr s) 0.3 ∅ example_store
              = (Raise (ValueError msg), example_store)).
Proof.
  apply (invalid_threshold_scheme_is_rejected example_bias_knn example_bias_knn
           example_row_normalize example_store 1%positive example_kernel example_adata
           (PyInt 1)).
  - reflexivity.
  - reflexivity.
  - reflexivity.
Defined.

Lemma compute_without_cells_and_n_neighbors_raises_witness :
  compute_transition_matrix example_bias_knn example_bias_knn example_row_normalize
    1%positive (ArgStr "soft") (Fin (Q2Qc 0.3)) (Fin (Q2Qc 10)) (Fin (Q2Qc 0.5)) ∅ empty_store
  = (Raise (ValueError "zero-size array to reduction operation minimum which has no identity"),
     empty_store).
Proof.
  apply (compute_without_cells_and_n_neighbors_raises example_bias_knn example_bias_knn
           example_row_normalize empty_store 1%positive empty_kernel
           {| obs := <["dpt_pseudotime" := []]> ∅; obsp_connectivities := Some [];
              uns_n_neighbors := None |}).
  - reflexivity.
  - reflexivity.
  - by left.
  - reflexivity.
Defined.

Lemma unused_scheme_arguments_do_not_invalidate_witness :
  compute_transition_matrix example_bias_knn example_bias_knn example_row_normalize
    1%positive (ArgStr "hard") (Fin (Q2Qc 0.3)) (Fin (Q2Qc 20)) (Fin (Q2Qc 0.25)) ∅
    computed_store
  = (Ok 1%positive, computed_store).
Proof.
  apply (proj1 (unused_scheme_arguments_do_not_invalidate example_bias_knn example_bias_knn
                  example_row_normalize example_store computed_store 1%positive 1%positive
                  (Fin (Q2Qc 0.3)) (Fin (Q2Qc 10)) (Fin (Q2Qc 0.5)) ∅)).
  vm_compute. reflexivity.
Defined.

Lemma changed_frac_to_keep_recomputes_witness :
  let st1 := (example_compute (ArgStr "hard") 0.5 ∅ computed_store).2 in
  ∃ k1 t,
    kernels st1 !! 1%positive = Some k1
    ∧ _transition_matrix k1 = Some t
    ∧ (t ∉ dom (matrices computed_store))
    ∧ _params k1 !! "frac_to_keep" = Some (PyFloat (Fin (Q2Qc 0.5))).
Proof.
  intros st1.
  apply (changed_frac_to_keep_recomputes example_bias_knn example_bias_knn
           example_row_normalize example_store computed_store st1 1%positive 1%positive
           1%positive (Fin (Q2Qc 0.3)) (Fin (Q2Qc 0.5)) (Fin (Q2Qc 10)) (Fin (Q2Qc 0.5)) ∅).
  - vm_compute. reflexivity.
  - intros [= H]; try (vm_compute in H; discriminate).
  - vm_compute. reflexivity.
Defined.

Lemma scheme_keyword_hides_the_callable_witness :
  let kwargs : gmap string pyval := <["scheme" := PyStr "mine"]> ∅ in
  let st1 := (example_compute (ArgCallable "<function f>" example_bias_knn) 0.3 kwargs
                example_store).2 in
  compute_transition_matrix example_bias_knn example_bias_knn example_row_normalize
    1%positive (ArgCallable "<function g>" (λ _ _ _, Raise (RuntimeError "not run")))
    (Fin (Q2Qc 0.3)) (Fin (Q2Qc 10)) (Fin (Q2Qc 0.5)) kwargs st1
  = (Ok 1%positive, st1).
Proof.
  intros kwargs st1.
  apply (scheme_keyword_hides_the_callable example_bias_knn example_bias_knn
           example_row_normalize example_store st1 1%positive 1%positive "<function f>"
           example_bias_knn).
  - eexists. reflexivity.
  - vm_compute. reflexivity.
Defined.

Lemma compute_keeps_direction_and_pseudotime_witness :
  ∃ k k1,
    kernels example_store !! 1%positive = Some k
    ∧ kernels computed_store !! 1%positive = Some k1
    ∧ _backward k1 = _backward k
    ∧ _time_key k1 = _time_key k
    ∧ _adata k1 = _adata k
    ∧ _pseudotime k1 = _pseudotime k
    ∧ arrays computed_store !! _pseudotime k1 = arrays example_store !! _pseudotime k
    ∧ adatas computed_store = adatas example_store
    ∧ (∀ l, l ≠ 1%positive → kernels computed_store !! l = kernels example_store !! l).
Proof.
  apply (compute_keeps_direction_and_pseudotime example_bias_knn example_bias_knn
           example_row_normalize example_store computed_store 1%positive 1%positive
           (ArgStr "hard") (Fin (Q2Qc 0.3)) (Fin (Q2Qc 10)) (Fin (Q2Qc 0.5)) ∅).
  vm_compute. reflexivity.
Defined.

Lemma copy_of_a_cached_kernel_is_cached_witness :
  ∃ pk st2,
    copy 1%positive computed_store = (Ok pk, st2)
    ∧ pk ≠ 1%positive
    ∧ compute_transition_matrix example_bias_knn example_bias_knn example_row_normalize
        pk (ArgStr "hard") (Fin (Q2Qc 0.3)) (Fin (Q2Qc 10)) (Fin (Q2Qc 0.5)) ∅ st2
      = (Ok pk, st2).
Proof.
  destruct (kernels computed_store !! 1%positive) as [k1|] eqn:Hk1;
    [|by vm_compute in Hk1].
  apply (copy_of_a_cached_kernel_is_cached example_bias_knn example_bias_knn
           example_row_normalize example_store computed_store 1%positive 1%positive
           (ArgStr "hard") (Fin (Q2Qc 0.3)) (Fin (Q2Qc 10)) (Fin (Q2Qc 0.5)) ∅
           k1 example_adata [Fin 0; Fin 1] (FloatArray [Fin 0; Fin 1])).
  - vm_compute. reflexivity.
  - exact Hk1.
  - vm_compute in Hk1. injection Hk1 as <-. reflexivity.
  - vm_compute in Hk1. injection Hk1 as <-. reflexivity.
  - vm_compute in Hk1. injection Hk1 as <-. reflexivity.
  - vm_compute in Hk1. injection Hk1 as <-. right. eexists _, _. split; reflexivity.
Defined.

End pseudotime_kernel_properties.
